(** * Ryobi garage-door component: session and connection management

    A shallow embedding of [ryobiapi.py] (classes [RyobiApi] and
    [RyobiWssCtrl]) and the properties of its HTTP helper, login, device
    enumeration, WebSocket connection and publish logic.

    Python objects become records, methods become computations in a small
    state-and-exception monad (a raised exception keeps the mutations done
    before it, as in Python), and the outside world (HTTP server, websocket
    library, network thread) is an oracle [env] read through counters kept
    in [world]. *)

From Stdlib Require Import String Ascii List ZArith Lia Bool Arith PeanoNat.
From Stdlib Require Import RelationClasses.
From Stdlib Require Import DecimalString.
Import ListNotations.
Local Open Scope string_scope.
#[local] Set Warnings "-register-all".

(** ** Python values *)

(** What [json.loads] / [resp.json()] produces; [JNull] is Python's [None].
    Objects are dicts: association lists in insertion order, with distinct
    keys. Non-integer numbers are not needed by any property below and are
    left out. *)
Inductive json : Type :=
| JNull
| JBool (b : bool)
| JNum (z : Z)
| JStr (s : string)
| JArr (l : list json)
| JObj (d : list (string * json)).

Definition pydict := list (string * json).

Inductive exn : Type :=
| KeyError (k : string)
| TypeError
| AttributeError
| ValueError
| RuntimeError
| WebSocketException
| WebSocketConnectionClosedException.

(** [WebSocketConnectionClosedException] is a subclass of
    [WebSocketException] in the websocket-client library. *)
Definition is_WebSocketException (e : exn) : bool :=
  match e with
  | WebSocketException | WebSocketConnectionClosedException => true
  | _ => false
  end.

Definition is_WebSocketConnectionClosedException (e : exn) : bool :=
  match e with
  | WebSocketConnectionClosedException => true
  | _ => false
  end.

Inductive pyres (A : Type) : Type :=
| Ret (a : A)
| Raise (e : exn).
Arguments Ret {A} a.
Arguments Raise {A} e.

Module Py.

(** [d.get(k)] on a dict: the binding of [k], if any. *)
Fixpoint lookup (k : string) (d : pydict) : option json :=
  match d with
  | [] => None
  | (k', v) :: d' => if String.eqb k k' then Some v else lookup k d'
  end.

(** [d[k] = v]: overwrite in place or append (insertion order). *)
Fixpoint setitem (k : string) (v : json) (d : pydict) : pydict :=
  match d with
  | [] => [(k, v)]
  | (k', v') :: d' =>
      if String.eqb k k' then (k, v) :: d' else (k', v') :: setitem k v d'
  end.

(** [bool(x)] *)
Definition truthy (x : json) : bool :=
  match x with
  | JNull => false
  | JBool b => b
  | JNum z => negb (Z.eqb z 0)
  | JStr s => negb (String.eqb s "")
  | JArr l => match l with [] => false | _ => true end
  | JObj d => match d with [] => false | _ => true end
  end.

(** [x[k]] for a string key [k]. *)
Definition getitem (x : json) (k : string) : pyres json :=
  match x with
  | JObj d => match lookup k d with
              | Some v => Ret v
              | None => Raise (KeyError k)
              end
  | _ => Raise TypeError
  end.

Fixpoint substringb (k s : string) : bool :=
  if String.prefix k s then true
  else match s with
       | EmptyString => false
       | String _ s' => substringb k s'
       end.

Definition is_str (k : string) (x : json) : bool :=
  match x with
  | JStr s => String.eqb k s
  | _ => false
  end.

(** [k in x] for a string [k]: key membership on a dict, element
    membership on a list, substring test on a string, [TypeError]
    otherwise. *)
Definition contains (k : string) (x : json) : pyres bool :=
  match x with
  | JObj d => Ret (match lookup k d with Some _ => true | None => false end)
  | JArr l => Ret (existsb (is_str k) l)
  | JStr s => Ret (substringb k s)
  | _ => Raise TypeError
  end.

Fixpoint chars (s : string) : list json :=
  match s with
  | EmptyString => []
  | String c s' => JStr (String c EmptyString) :: chars s'
  end.

(** The items [for result in x] goes through. *)
Definition iter (x : json) : pyres (list json) :=
  match x with
  | JArr l => Ret l
  | JObj d => Ret (map (fun kv => JStr (fst kv)) d)
  | JStr s => Ret (chars s)
  | _ => Raise TypeError
  end.

End Py.

(** ** State and exception monad *)

Definition M (S A : Type) : Type := S -> pyres A * S.

Definition ret {S A} (a : A) : M S A := fun s => (Ret a, s).
Definition raise {S A} (e : exn) : M S A := fun s => (Raise e, s).
Definition bind {S A B} (m : M S A) (k : A -> M S B) : M S B :=
  fun s => match m s with
           | (Ret a, s1) => k a s1
           | (Raise e, s1) => (Raise e, s1)
           end.
Definition lift_res {S A} (r : pyres A) : M S A := fun s => (r, s).

(** [try: m except <class>: h] where [catches] decides the class. *)
Definition try_except {S A} (m : M S A) (catches : exn -> bool) (h : M S A)
  : M S A :=
  fun s => match m s with
           | (Ret a, s1) => (Ret a, s1)
           | (Raise e, s1) => if catches e then h s1 else (Raise e, s1)
           end.

Declare Scope py_scope.
Delimit Scope py_scope with py.
Notation "x <- m ;; k" := (bind m (fun x => k))
  (at level 61, m at next level, right associativity) : py_scope.
Notation "m ;;; k" := (bind m (fun _ => k))
  (at level 61, right associativity) : py_scope.
Local Open Scope py_scope.

(** ** The outside world *)

Inductive request_error : Type :=
| TimeoutException
| ConnectError
| ReadError.

(** What [client.send(request)] does: a response with a status code and a
    body ([None] when the body is not JSON, so that [resp.json()] raises),
    or an [httpx.RequestError]. *)
Inductive http_outcome : Type :=
| HttpResponse (status_code : Z) (body : option json)
| HttpRequestError (err : request_error).

Inductive callback : Type :=
| CbOpen
| CbClose
| CbError
| CbPong
| CbMessage (payload : option json).

(** Observable actions, most recent first in [log]. A websocket handle is
    the number of the [WebSocketApp] it was created as. *)
Inductive event : Type :=
| EvHttp (method url : string)
| EvWsCreate (h : nat)
| EvAuth (h : nat)
| EvSub (h : nat)
| EvThreadStart (h : nat)
| EvSend (h : nat) (msg : json)
| EvClose (h : nat)
| EvSleep
| EvCallback (cb : callback).

Record env : Type := mkEnv {
  http_reply : nat -> http_outcome;   (* outcome of the k-th HTTP request *)
  lib_raises : nat -> option exn;     (* does the k-th library call raise *)
  thread_alive : nat -> bool;         (* [is_alive()] of the thread of handle k *)
  bg_events : nat -> list callback    (* callbacks run during the k-th sleep *)
}.

Record world : Type := mkWorld {
  http_sent : nat;
  lib_calls : nat;
  ws_made : nat;
  sleeps : nat;
  log : list event
}.

Definition world0 : world := mkWorld 0 0 0 0 [].

Definition emit (e : event) (w : world) : world :=
  mkWorld (http_sent w) (lib_calls w) (ws_made w) (sleeps w) (e :: log w).

(** ** Constants of ryobiapi.py *)

(** The three values of [socket_state]: the strings ["Open"], ["Close"]
    and ["Error"]. *)
Inductive sock_state : Type :=
| SOCK_CONNECTED
| SOCK_CLOSE
| SOCK_ERROR.

Definition sock_state_eqb (a b : sock_state) : bool :=
  match a, b with
  | SOCK_CONNECTED, SOCK_CONNECTED => true
  | SOCK_CLOSE, SOCK_CLOSE => true
  | SOCK_ERROR, SOCK_ERROR => true
  | _, _ => false
  end.

Definition RYOBI_URL : string := "tti.tiwiconnect.com".
Definition HTTP_URL : string := "https://" ++ RYOBI_URL.
Definition HTTP_ENDPOINT : string := HTTP_URL ++ "/api".
Definition N_RETRY : nat := 6.

Definition str_of_nat (n : nat) : string :=
  NilEmpty.string_of_uint (Nat.to_uint n).

(** * RyobiApi *)

Record RyobiApi : Type := mkApi {
  username : string;
  password : string;
  api_key : json;
  user_id : json;
  devices : list pydict
}.

(** [RyobiApi.__init__] *)
Definition RyobiApi_init (username password : string) : RyobiApi :=
  mkApi username password JNull JNull [].

Definition set_user_id (v : json) (a : RyobiApi) : RyobiApi :=
  mkApi (username a) (password a) (api_key a) v (devices a).
Definition set_api_key (v : json) (a : RyobiApi) : RyobiApi :=
  mkApi (username a) (password a) v (user_id a) (devices a).
Definition append_device (d : pydict) (a : RyobiApi) : RyobiApi :=
  mkApi (username a) (password a) (api_key a) (user_id a) (devices a ++ [d]).

(** What a method returning a list hands back: the object held in
    [self.devices] itself, or a list created by the call. *)
Inductive list_ref : Type :=
| SelfDevices
| NewList (l : list pydict).

Definition deref (r : list_ref) (a : RyobiApi) : list pydict :=
  match r with
  | SelfDevices => devices a
  | NewList l => l
  end.

(** The two dicts [send_http] returns on failure. *)
Definition error_401 : json :=
  JObj [("msg", JStr "error");
        ("details",
         JStr "Invalid login credentials HTTP 401 Unothorized. Skipped retry")].

Definition error_retries : json :=
  JObj [("msg", JStr "error");
        ("details", JStr ("Failed after " ++ str_of_nat N_RETRY ++ " retry"))].

Definition LOGIN_URL : string := HTTP_ENDPOINT ++ "/login".
Definition DEVICES_URL : string := HTTP_ENDPOINT ++ "/devices".

Section Api.

Variable E : env.

(** [await client.send(request)]; an [httpx.RequestError] is returned as
    an outcome and handled by the caller's [except] branch. *)
Definition client_send (method url : string) : M world http_outcome :=
  fun w =>
    (Ret (http_reply E (http_sent w)),
     mkWorld (S (http_sent w)) (lib_calls w) (ws_made w) (sleeps w)
             (EvHttp method url :: log w)).

(** [resp.json()] *)
Definition resp_json (body : option json) : M world json :=
  match body with
  | Some j => ret j
  | None => raise ValueError
  end.

(** The body of [for attempt in range(N_RETRY)] in [send_http], with
    [attempts] iterations left. *)
Fixpoint send_http_loop (attempts : nat) (method url : string)
  : M world json :=
  match attempts with
  | O => ret error_retries
  | S n =>
      o <- client_send method url ;;
      match o with
      | HttpResponse status_code body =>
          if Z.eqb status_code 200 then resp_json body
          else if Z.eqb status_code 401 then ret error_401
          else send_http_loop n method url
      | HttpRequestError _ => send_http_loop n method url
      end
  end.

Definition send_http (method url : string) : M world json :=
  send_http_loop N_RETRY method url.

Definition ApiM (A : Type) : Type := M (RyobiApi * world) A.

Definition in_world {X A} (m : M world A) : M (X * world) A :=
  fun s => match m (snd s) with (r, w') => (r, (fst s, w')) end.

Definition self {X} : M (X * world) X := fun s => (Ret (fst s), s).

Definition update {X} (f : X -> X) : M (X * world) unit :=
  fun s => (Ret tt, (f (fst s), snd s)).

(** [RyobiApi.login] *)
Definition login (url : string) : ApiM bool :=
  resp <- in_world (send_http "POST" url) ;;
  result <- lift_res (Py.getitem resp "result") ;;
  has_id <- lift_res (Py.contains "_id" result) ;;
  if (has_id : bool) then
    uid <- lift_res (Py.getitem result "_id") ;;
    update (set_user_id uid) ;;;
    auth <- lift_res (Py.getitem result "auth") ;;
    has_key <- lift_res (Py.contains "apikey" auth) ;;
    if (has_key : bool) then
      key <- lift_res (Py.getitem auth "apiKey") ;;
      update (set_api_key key) ;;;
      ret true
    else ret false
  else ret false.

(** One round of the [for result in resp["result"]] loop of
    [get_devices], up to the [append]. *)
Definition make_device (a : RyobiApi) (result : json) : pyres pydict :=
  let device := [] in
  let device := Py.setitem "username" (JStr (username a)) device in
  let device := Py.setitem "password" (JStr (password a)) device in
  let device := Py.setitem "api_key" (api_key a) device in
  let device := Py.setitem "u_id" (user_id a) device in
  match Py.getitem result "deviceTypeIds" with
  | Raise e => Raise e
  | Ret type_ids =>
  let device := Py.setitem "type_ids" type_ids device in
  match Py.getitem result "varName" with
  | Raise e => Raise e
  | Ret d_id =>
  let device := Py.setitem "d_id" d_id device in
  match Py.getitem result "metaData" with
  | Raise e => Raise e
  | Ret meta =>
  match Py.getitem meta "name" with
  | Raise e => Raise e
  | Ret name =>
  let device := Py.setitem "name" name device in
  match Py.getitem meta "version" with
  | Raise e => Raise e
  | Ret version =>
  let device := Py.setitem "version" version device in
  match Py.getitem meta "description" with
  | Raise e => Raise e
  | Ret description =>
  let device := Py.setitem "description" description device in
  match Py.getitem meta "sys" with
  | Raise e => Raise e
  | Ret sys =>
  match Py.getitem sys "lastSeen" with
  | Raise e => Raise e
  | Ret last_seen =>
      Ret (Py.setitem "last_seen" last_seen device)
  end end end end end end end end.

Fixpoint get_devices_loop (items : list json) : ApiM unit :=
  match items with
  | [] => ret tt
  | result :: rest =>
      a <- self ;;
      device <- lift_res (make_device a result) ;;
      update (append_device device) ;;;
      get_devices_loop rest
  end.

(** [RyobiApi.get_devices] *)
Definition get_devices (url : string) : ApiM list_ref :=
  resp <- in_world (send_http "GET" url) ;;
  if Py.truthy resp then
    result <- lift_res (Py.getitem resp "result") ;;
    items <- lift_res (Py.iter result) ;;
    get_devices_loop items ;;;
    ret SelfDevices
  else ret (NewList []).

End Api.

(** * RyobiWssCtrl *)

Record RyobiWssCtrl : Type := mkCtrl {
  base : RyobiApi;                 (* the fields inherited from RyobiApi *)
  socket_state : sock_state;
  device_status : json;
  subscriber : list json;
  wst : option nat;
  ws : option nat;
  _refresh_time : Z;
  sent_counter : Z
}.

(** [RyobiWssCtrl.__init__]; [u_id] and [d_id] are accepted and not stored. *)
Definition RyobiWssCtrl_init (username password : string)
    (api_key u_id d_id : json) : RyobiWssCtrl :=
  mkCtrl (set_api_key api_key (RyobiApi_init username password))
         SOCK_CLOSE JNull [] None None 60 0.

Definition set_base (a : RyobiApi) (c : RyobiWssCtrl) : RyobiWssCtrl :=
  mkCtrl a (socket_state c) (device_status c) (subscriber c) (wst c) (ws c)
         (_refresh_time c) (sent_counter c).
Definition set_socket_state (s : sock_state) (c : RyobiWssCtrl)
  : RyobiWssCtrl :=
  mkCtrl (base c) s (device_status c) (subscriber c) (wst c) (ws c)
         (_refresh_time c) (sent_counter c).
Definition set_wst (t : option nat) (c : RyobiWssCtrl) : RyobiWssCtrl :=
  mkCtrl (base c) (socket_state c) (device_status c) (subscriber c) t (ws c)
         (_refresh_time c) (sent_counter c).
Definition set_ws (h : option nat) (c : RyobiWssCtrl) : RyobiWssCtrl :=
  mkCtrl (base c) (socket_state c) (device_status c) (subscriber c) (wst c) h
         (_refresh_time c) (sent_counter c).
Definition set_sent_counter (n : Z) (c : RyobiWssCtrl) : RyobiWssCtrl :=
  mkCtrl (base c) (socket_state c) (device_status c) (subscriber c) (wst c)
         (ws c) (_refresh_time c) n.

(** [GdoDevice.__init__] (gdodevice.py): the controller's constructor, then
    the credentials once more, this time with [user_id]. The descriptive
    fields of the device ([name], [version], ...) are read by no method
    below and are left out. *)
Definition GdoDevice_init (username password : string)
    (api_key u_id d_id : json) : RyobiWssCtrl :=
  let c := RyobiWssCtrl_init username password api_key u_id d_id in
  set_base (mkApi username password api_key u_id (devices (base c))) c.

Definition is_thread_start (e : event) : bool :=
  match e with EvThreadStart _ => true | _ => false end.

(** Has [Thread.start()] succeeded at some point of the log. *)
Definition started (l : list event) : bool := existsb is_thread_start l.

Section Wss.

Variable E : env.

Definition CtrlM (A : Type) : Type := M (RyobiWssCtrl * world) A.

(** A method of [RyobiApi] called on the subclass instance. *)
Definition as_api {A} (m : ApiM A) : CtrlM A :=
  fun s =>
    match m (base (fst s), snd s) with
    | (r, (a', w')) => (r, (set_base a' (fst s), w'))
    end.

(** A call into the websocket or threading library: the oracle says
    whether it raises; when it does not, its effect [ev] is logged. *)
Definition lib_call (ev : event) : M world unit :=
  fun w =>
    let w1 := mkWorld (http_sent w) (S (lib_calls w)) (ws_made w)
                      (sleeps w) (log w) in
    match lib_raises E (lib_calls w) with
    | Some e => (Raise e, w1)
    | None => (Ret tt, emit ev w1)
    end.

(** [self.ws = websocket.WebSocketApp(WS_ENDPOINT, ...)] *)
Definition new_websocket_app : CtrlM unit :=
  fun s =>
    let h := ws_made (snd s) in
    match lib_call (EvWsCreate h) (snd s) with
    | (Ret _, w1) =>
        (Ret tt,
         (set_ws (Some h) (fst s),
          mkWorld (http_sent w1) (lib_calls w1) (S h) (sleeps w1) (log w1)))
    | (Raise e, w1) => (Raise e, (fst s, w1))
    end.

(** A method call on [self.ws]; on [None] the attribute lookup fails. *)
Definition on_ws {A} (f : nat -> M world A) : CtrlM A :=
  c <- self ;;
  match ws c with
  | Some h => in_world (f h)
  | None => raise AttributeError
  end.

(** Modelled from the spec: [RyobiWssCtrl.authenticate], called by
    [open_wss_thread], is defined nowhere in the source files; the spec
    has [connect] synchronously send an authentication frame on the
    socket it has just opened. *)
Definition authenticate : CtrlM unit :=
  on_ws (fun h => lib_call (EvAuth h)).

(** Modelled from the spec: [RyobiWssCtrl.subscribe], called by
    [open_wss_thread], is defined nowhere in the source files; the spec
    has [connect] synchronously send a subscription frame after the
    authentication frame. *)
Definition subscribe : CtrlM unit :=
  on_ws (fun h => lib_call (EvSub h)).

(** [self.ws.send(json_message)] *)
Definition ws_send (json_message : json) : CtrlM unit :=
  on_ws (fun h => lib_call (EvSend h json_message)).

(** [self.ws.close()]: the library's [close] stops the read loop and
    drops the socket, swallowing transport errors. *)
Definition ws_close : CtrlM unit :=
  on_ws (fun h => fun w => (Ret tt, emit (EvClose h) w)).

(** [self.wst = threading.Thread(target=self.ws.run_forever)] *)
Definition new_thread : CtrlM unit :=
  c <- self ;;
  match ws c with
  | Some h => update (set_wst (Some h))
  | None => raise AttributeError
  end.

(** [self.wst.start()] *)
Definition thread_start : CtrlM unit :=
  c <- self ;;
  match wst c with
  | Some h => in_world (lib_call (EvThreadStart h))
  | None => raise AttributeError
  end.

(** [self.wst.is_alive()] *)
Definition thread_is_alive : CtrlM bool :=
  c <- self ;;
  match wst c with
  | Some h => ret (thread_alive E h)
  | None => raise AttributeError
  end.

(** ** Socket callbacks *)

Definition on_error : CtrlM unit := update (set_socket_state SOCK_ERROR).
Definition on_close : CtrlM unit := update (set_socket_state SOCK_CLOSE).
Definition on_pong : CtrlM unit := ret tt.
Definition on_open : CtrlM unit := update (set_socket_state SOCK_CONNECTED).

Definition on_message (message : option json) : CtrlM unit :=
  update (set_sent_counter 0) ;;;
  match message with
  | Some wss_data => ret tt
  | None => raise ValueError          (* json.loads fails *)
  end.

Definition run_callback (cb : callback) : CtrlM unit :=
  match cb with
  | CbOpen => on_open
  | CbClose => on_close
  | CbError => on_error
  | CbPong => on_pong
  | CbMessage m => on_message m
  end.

(** The network thread running one callback: the library wraps the call
    and does not let its exception reach the controller's caller. *)
Definition fire (cb : callback) : CtrlM unit :=
  fun s =>
    match run_callback cb s with
    | (_, (c', w')) => (Ret tt, (c', emit (EvCallback cb) w'))
    end.

Fixpoint fire_all (cbs : list callback) : CtrlM unit :=
  match cbs with
  | [] => ret tt
  | cb :: rest => fire cb ;;; fire_all rest
  end.

(** [await asyncio.sleep(0.5)]: while the caller is suspended the network
    thread, if one was started, runs the callbacks the oracle gives. *)
Definition sleep : CtrlM unit :=
  fun s =>
    let w := snd s in
    let w1 := mkWorld (http_sent w) (lib_calls w) (ws_made w)
                      (S (sleeps w)) (EvSleep :: log w) in
    if started (log w) then fire_all (bg_events E (sleeps w)) (fst s, w1)
    else (Ret tt, (fst s, w1)).

(** ** Connection *)

(** [RyobiWssCtrl.check_credentials] *)
Definition check_credentials : CtrlM bool :=
  c <- self ;;
  if negb (Py.truthy (api_key (base c))) then
    ok <- as_api (login E LOGIN_URL) ;;
    if (ok : bool) then ret true else ret false
  else ret true.

(** The body of the [try] block of [open_wss_thread]. *)
Definition wss_setup : CtrlM bool :=
  new_websocket_app ;;;
  authenticate ;;;
  subscribe ;;;
  new_thread ;;;
  thread_start ;;;
  alive <- thread_is_alive ;;
  if (alive : bool) then ret true else ret false.

(** [RyobiWssCtrl.open_wss_thread] *)
Definition open_wss_thread : CtrlM bool :=
  ok <- check_credentials ;;
  if negb ok then ret false
  else
    try_except wss_setup is_WebSocketException
               (update (set_socket_state SOCK_ERROR) ;;; ret false).

(** The [for i in range(15)] loop of [connect_wss], [n] rounds left. *)
Fixpoint connect_poll (n : nat) : CtrlM bool :=
  match n with
  | O => ret false
  | S n' =>
      c <- self ;;
      if sock_state_eqb (socket_state c) SOCK_CONNECTED then ret true
      else sleep ;;; connect_poll n'
  end.

(** [RyobiWssCtrl.connect_wss] *)
Definition connect_wss : CtrlM bool :=
  c <- self ;;
  if sock_state_eqb (socket_state c) SOCK_CONNECTED then ret true
  else
    ok <- open_wss_thread ;;
    if (ok : bool) then connect_poll 15 else ret false.

(** ** Publishing *)

(** The [if self.sent_counter >= 5] block of [publish_wss]. *)
Definition dead_link_check : CtrlM unit :=
  c <- self ;;
  if Z.leb 5 (sent_counter c) then
    update (set_sent_counter 0) ;;;
    ws_close ;;;
    update (set_socket_state SOCK_CLOSE)
  else ret tt.

(** The [for attempt in range(N_RETRY)] loop of [publish_wss]. The [try]
    block yields whether it returned. *)
Fixpoint publish_loop (attempts : nat) (json_message : json) : CtrlM bool :=
  match attempts with
  | O => ret false
  | S n =>
      c <- self ;;
      if sock_state_eqb (socket_state c) SOCK_CONNECTED then
        sent <- try_except
                  (ws_send json_message ;;;
                   update (fun c => set_sent_counter (sent_counter c + 1) c) ;;;
                   ret true)
                  is_WebSocketConnectionClosedException
                  (update (set_socket_state SOCK_CLOSE) ;;; ret false) ;;
        if (sent : bool) then ret true else publish_loop n json_message
      else
        connect_wss ;;;
        publish_loop n json_message
  end.

(** [RyobiWssCtrl.publish_wss]; [dict_message] stands for its
    serialisation [json.dumps(dict_message)] as well. *)
Definition publish_wss (dict_message : json) : CtrlM bool :=
  dead_link_check ;;;
  publish_loop N_RETRY dict_message.

End Wss.

(** * Vocabulary of the properties *)

(** ** HTTP *)

(** The outcomes [send_http] answers with another attempt: a status other
    than 200 and 401, or a network-level error. *)
Definition retried (o : http_outcome) : bool :=
  match o with
  | HttpResponse status_code _ =>
      negb (Z.eqb status_code 200) && negb (Z.eqb status_code 401)
  | HttpRequestError _ => true
  end.

(** Status 500, status 503 or a timeout. *)
Definition server_down (o : http_outcome) : bool :=
  match o with
  | HttpResponse status_code _ =>
      Z.eqb status_code 500 || Z.eqb status_code 503
  | HttpRequestError TimeoutException => true
  | HttpRequestError _ => false
  end.

(** From world [w] on, the next [N_RETRY] requests are all retried. *)
Definition exhausts_retries (E : env) (w : world) : Prop :=
  forall k, k < N_RETRY -> retried (http_reply E (http_sent w + k)) = true.

(** From world [w] on, a 401 arrives within [N_RETRY] requests, after
    retried outcomes only. *)
Definition receives_401 (E : env) (w : world) : Prop :=
  exists k body,
    k < N_RETRY /\
    (forall j, j < k -> retried (http_reply E (http_sent w + j)) = true) /\
    http_reply E (http_sent w + k) = HttpResponse 401 body.

(** The world after [n] more HTTP requests. *)
Definition after_requests (n : nat) (method url : string) (w : world)
  : world :=
  mkWorld (n + http_sent w) (lib_calls w) (ws_made w) (sleeps w)
          (repeat (EvHttp method url) n ++ log w).

(** [x[k1][k2]...], when every step is a dict holding the key. *)
Fixpoint path (ks : list string) (x : json) : option json :=
  match ks with
  | [] => Some x
  | k :: ks' =>
      match x with
      | JObj d => match Py.lookup k d with
                  | Some v => path ks' v
                  | None => None
                  end
      | _ => None
      end
  end.

Definition lacks (ks : list string) (body : json) : bool :=
  match path ks body with Some _ => false | None => true end.

(** The login failure property in the spec's words: on a body lacking
    [result._id] or [result.auth.apiKey], [login] returns false and the
    stored [user_id] and [api_key] are what they were. *)
Definition login_failure_claim (E : env) (body : json) (a : RyobiApi)
    (w : world) : Prop :=
  http_reply E (http_sent w) = HttpResponse 200 (Some body) ->
  lacks ["result"; "_id"] body || lacks ["result"; "auth"; "apiKey"] body
    = true ->
  fst (login E LOGIN_URL (a, w)) = Ret false /\
  user_id (fst (snd (login E LOGIN_URL (a, w)))) = user_id a /\
  api_key (fst (snd (login E LOGIN_URL (a, w)))) = api_key a.

(** [ds] are the descriptors [get_devices], called on client [a] in world
    [w], builds from the response it gets, which leaves the world [w']. *)
Definition built_from (E : env) (url : string) (a : RyobiApi)
    (w w' : world) (ds : list pydict) : Prop :=
  exists resp result items,
    send_http E "GET" url w = (Ret resp, w') /\
    Py.getitem resp "result" = Ret result /\
    Py.iter result = Ret items /\
    Forall2 (fun r d => make_device a r = Ret d) items ds.

(** ** WebSocket session *)

Definition is_inbound (e : event) : bool :=
  match e with EvCallback (CbMessage _) => true | _ => false end.

(** Number of inbound messages handled so far. *)
Definition inbound (l : list event) : nat := length (filter is_inbound l).

Definition is_auth (h : nat) (e : event) : bool :=
  match e with EvAuth h' => Nat.eqb h h' | _ => false end.

(** In [l] (most recent first) a subscription frame was sent on handle
    [h], and an authentication frame before it. *)
Fixpoint auth_then_sub (h : nat) (l : list event) : bool :=
  match l with
  | [] => false
  | EvSub h' :: older =>
      if Nat.eqb h h' then existsb (is_auth h) older
      else auth_then_sub h older
  | _ :: older => auth_then_sub h older
  end.

(** Every thread start comes after both frames on its handle, and every
    callback after a thread start. *)
Fixpoint log_ok (l : list event) : bool :=
  match l with
  | [] => true
  | EvThreadStart h :: older => auth_then_sub h older && log_ok older
  | EvCallback _ :: older => started older && log_ok older
  | _ :: older => log_ok older
  end.

(** The invariant of the session: the log is in order, and the socket is
    [Connected] only if a thread was started. *)
Definition Inv (s : RyobiWssCtrl * world) : Prop :=
  log_ok (log (snd s)) = true /\
  (socket_state (fst s) = SOCK_CONNECTED -> started (log (snd s)) = true).

(** In [l] (most recent first) an authentication frame and then a
    subscription frame were sent on handle [h]. *)
Definition frames_sent (h : nat) (l : list event) : Prop :=
  exists mid1 mid2 older,
    l = (mid1 ++ EvSub h :: mid2 ++ EvAuth h :: older)%list.

(** In [l] a thread was started on some handle after both frames had been
    sent on that handle. *)
Definition frames_before_thread (l : list event) : Prop :=
  exists h newer older,
    l = (newer ++ EvThreadStart h :: older)%list /\ frames_sent h older.

(** What can happen to a controller: its methods are called, and once a
    thread has been started the network thread runs callbacks. *)
Inductive step (E : env)
  : RyobiWssCtrl * world -> RyobiWssCtrl * world -> Prop :=
| step_login url r s s' :
    as_api (login E url) s = (r, s') -> step E s s'
| step_get_devices url r s s' :
    as_api (get_devices E url) s = (r, s') -> step E s s'
| step_check_credentials r s s' :
    check_credentials E s = (r, s') -> step E s s'
| step_open_wss_thread r s s' :
    open_wss_thread E s = (r, s') -> step E s s'
| step_connect_wss r s s' :
    connect_wss E s = (r, s') -> step E s s'
| step_publish_wss msg r s s' :
    publish_wss E msg s = (r, s') -> step E s s'
| step_callback cb r s s' :
    started (log (snd s)) = true ->
    fire cb s = (r, s') -> step E s s'.

(** The states a controller goes through, from its construction on. *)
Inductive reachable (E : env) : RyobiWssCtrl * world -> Prop :=
| reach_init u p k uid did :
    reachable E (RyobiWssCtrl_init u p k uid did, world0)
| reach_init_device u p k uid did :
    reachable E (GdoDevice_init u p k uid did, world0)
| reach_step s s' :
    reachable E s -> step E s s' -> reachable E s'.

(** The world after [i] more library calls that logged [evs] and left
    [made] websocket handles allocated. *)
Definition after_calls (i made : nat) (evs : list event) (w : world)
  : world :=
  mkWorld (http_sent w) (i + lib_calls w) made (sleeps w) (evs ++ log w).





(** ** Scenarios *)

(** A controller created with an API key. *)
Definition ctrl_keyed : RyobiWssCtrl :=
  RyobiWssCtrl_init "user" "secret" (JStr "k1") (JStr "u1") (JStr "d1").

(** The socket opens during the first polling sleep. *)
Definition env_opens : env :=
  mkEnv (fun _ => HttpRequestError ConnectError) (fun _ => None)
        (fun _ => true)
        (fun k => match k with 0 => [CbOpen] | _ => [] end).

(** The socket never opens and nothing is heard from the thread. *)
Definition env_silent : env :=
  mkEnv (fun _ => HttpRequestError ConnectError) (fun _ => None)
        (fun _ => true) (fun _ => []).

(** [Thread.start()], the fourth library call, raises [RuntimeError]. *)
Definition env_no_thread : env :=
  mkEnv (fun _ => HttpRequestError ConnectError)
        (fun k => match k with 3 => Some RuntimeError | _ => None end)
        (fun _ => true) (fun _ => []).

(** Sending the authentication frame, the second library call, raises
    [WebSocketException]. *)
Definition env_auth_fails : env :=
  mkEnv (fun _ => HttpRequestError ConnectError)
        (fun k => match k with 1 => Some WebSocketException | _ => None end)
        (fun _ => true) (fun _ => []).

(** A server giving the same answer to every request; the websocket
    library never raises, threads stay alive, no callback runs. *)
Definition env_reply (o : http_outcome) : env :=
  mkEnv (fun _ => o) (fun _ => None) (fun _ => true) (fun _ => []).

Definition body_login_ok : json :=
  JObj [("result",
         JObj [("_id", JStr "u1"); ("auth", JObj [("apiKey", JStr "k1")])])].

Definition body_login_no_key : json :=
  JObj [("result", JObj [("_id", JStr "u1"); ("auth", JObj [])])].

Definition body_login_empty : json := JObj [("result", JObj [])].

Definition body_login_both_keys : json :=
  JObj [("result",
         JObj [("_id", JStr "u1");
               ("auth", JObj [("apikey", JStr "k0"); ("apiKey", JStr "k1")])])].

Definition body_devices : json :=
  JObj [("result",
         JArr [JObj [("deviceTypeIds", JArr [JStr "gdo"]);
                     ("varName", JStr "d1");
                     ("metaData",
                      JObj [("name", JStr "Garage");
                            ("version", JStr "1.0");
                            ("description", JStr "GDO");
                            ("sys", JObj [("lastSeen", JNum 100)])])]])].

(** The descriptor [get_devices] builds from [body_devices] for a client
    that has not logged in. *)
Definition device_garage : pydict :=
  [("username", JStr "user"); ("password", JStr "secret");
   ("api_key", JNull); ("u_id", JNull);
   ("type_ids", JArr [JStr "gdo"]); ("d_id", JStr "d1");
   ("name", JStr "Garage"); ("version", JStr "1.0");
   ("description", JStr "GDO"); ("last_seen", JNum 100)].

(** A server that is down in three different ways, then unauthorised. *)
Definition env_flaky : env :=
  mkEnv (fun k => match k with
                  | 0 | 3 => HttpResponse 500 None
                  | 1 | 4 => HttpResponse 503 (Some JNull)
                  | 2 | 5 => HttpRequestError TimeoutException
                  | _ => HttpResponse 401 None
                  end)
        (fun _ => None) (fun _ => true) (fun _ => []).

(** A server that is unavailable twice and then accepts the login. *)
Definition env_recovers : env :=
  mkEnv (fun k => match k with
                  | 0 | 1 => HttpResponse 503 None
                  | _ => HttpResponse 200 (Some body_login_both_keys)
                  end)
        (fun _ => None) (fun _ => true) (fun _ => []).

(** A server that is unavailable twice, accepts the login and from then
    on answers with the device list. *)
Definition env_session : env :=
  mkEnv (fun k => match k with
                  | 0 | 1 => HttpResponse 503 None
                  | 2 => HttpResponse 200 (Some body_login_both_keys)
                  | _ => HttpResponse 200 (Some body_devices)
                  end)
        (fun _ => None) (fun _ => true) (fun _ => []).

(** The descriptor built from [body_devices] after that login. *)
Definition device_garage_keyed : pydict :=
  [("username", JStr "user"); ("password", JStr "secret");
   ("api_key", JStr "k1"); ("u_id", JStr "u1");
   ("type_ids", JArr [JStr "gdo"]); ("d_id", JStr "d1");
   ("name", JStr "Garage"); ("version", JStr "1.0");
   ("description", JStr "GDO"); ("last_seen", JNum 100)].

(** A device list whose second item has no [metaData]. *)
Definition body_devices_broken : json :=
  JObj [("result",
         JArr [JObj [("deviceTypeIds", JArr [JStr "gdo"]);
                     ("varName", JStr "d1");
                     ("metaData",
                      JObj [("name", JStr "Garage");
                            ("version", JStr "1.0");
                            ("description", JStr "GDO");
                            ("sys", JObj [("lastSeen", JNum 100)])])];
               JObj [("deviceTypeIds", JArr [JStr "gdo"]);
                     ("varName", JStr "d2")]])].

(** The controller once the socket has opened. *)
Definition opened : RyobiWssCtrl * world :=
  snd (connect_wss env_opens (ctrl_keyed, world0)).

(** Publishing the same message over and over to a server that opens the
    socket and then never answers: the state after [n] calls. *)
Definition after_publishes (n : nat) : RyobiWssCtrl * world :=
  Nat.iter n (fun s => snd (publish_wss env_opens (JStr "open") s))
           (ctrl_keyed, world0).

(** ** Frame relations *)

(** A computation is stable for a preorder [R] on states when every run
    takes a state to an [R]-related one, whether it returns or raises. *)
Definition stable {S A} (R : S -> S -> Prop) (m : M S A) : Prop :=
  forall s r s', m s = (r, s') -> R s s'.

(** Events other than thread starts and callbacks. *)
Definition quiet (e : event) : bool :=
  match e with
  | EvThreadStart _ | EvCallback _ => false
  | _ => true
  end.

(** [Inv] is kept from [s] to [s']. *)
Definition keeps_inv (s s' : RyobiWssCtrl * world) : Prop := Inv s -> Inv s'.

(** From [s] to [s'] inbound messages may have been handled; if none was,
    [sent_counter] is what it was. *)
Definition keeps_count (s s' : RyobiWssCtrl * world) : Prop :=
  inbound (log (snd s)) <= inbound (log (snd s')) /\
  (inbound (log (snd s')) = inbound (log (snd s)) ->
   sent_counter (fst s') = sent_counter (fst s)).


(** ** Further vocabulary *)

(** From world [w] on, the [k]-th outcome is [o] and the ones before it
    are all retried: [o] is the first one that can end [send_http]. *)
Definition decided_at (E : env) (w : world) (k : nat) (o : http_outcome)
  : Prop :=
  k < N_RETRY /\
  (forall j, j < k -> retried (http_reply E (http_sent w + j)) = true) /\
  http_reply E (http_sent w + k) = o.

(** Descriptor [d] is the one built for the item [result] of a device list
    by client [a]: the client's credentials and the item's metadata under
    the ten keys of the source. *)
Definition describes (a : RyobiApi) (result : json) (d : pydict) : Prop :=
  map fst d
  = ["username"; "password"; "api_key"; "u_id"; "type_ids"; "d_id"; "name";
     "version"; "description"; "last_seen"] /\
  Py.lookup "username" d = Some (JStr (username a)) /\
  Py.lookup "password" d = Some (JStr (password a)) /\
  Py.lookup "api_key" d = Some (api_key a) /\
  Py.lookup "u_id" d = Some (user_id a) /\
  Py.lookup "type_ids" d = path ["deviceTypeIds"] result /\
  Py.lookup "d_id" d = path ["varName"] result /\
  Py.lookup "name" d = path ["metaData"; "name"] result /\
  Py.lookup "version" d = path ["metaData"; "version"] result /\
  Py.lookup "description" d = path ["metaData"; "description"] result /\
  Py.lookup "last_seen" d = path ["metaData"; "sys"; "lastSeen"] result.

(** The client with [ds] appended to its device list. *)
Definition with_devices (ds : list pydict) (a : RyobiApi) : RyobiApi :=
  mkApi (username a) (password a) (api_key a) (user_id a)
        (devices a ++ ds).




Definition is_send (e : event) : bool :=
  match e with EvSend _ _ => true | _ => false end.

(** Number of messages handed to [self.ws.send] without error so far. *)
Definition sends (l : list event) : nat := length (filter is_send l).

(** What no method of the controller does between [s] and [s']: unset
    the socket handle, start a thread without a socket handle, touch
    [device_status], [subscriber], [_refresh_time], the username, the
    password or the device list, or, holding a truthy API key, send an HTTP
    request or change the credentials. *)
Definition session_frame (s s' : RyobiWssCtrl * world) : Prop :=
  (ws (fst s) <> None -> ws (fst s') <> None) /\
  (started (log (snd s')) = true ->
   started (log (snd s)) = true \/ ws (fst s') <> None) /\
  device_status (fst s') = device_status (fst s) /\
  subscriber (fst s') = subscriber (fst s) /\
  _refresh_time (fst s') = _refresh_time (fst s) /\
  username (base (fst s')) = username (base (fst s)) /\
  password (base (fst s')) = password (base (fst s)) /\
  devices (base (fst s')) = devices (base (fst s)) /\
  (Py.truthy (api_key (base (fst s))) = true ->
   base (fst s') = base (fst s) /\
   http_sent (snd s') = http_sent (snd s)).

(** From [s] to [s'] nothing was sent, and [sent_counter] was left alone
    or reset to 0. *)
Definition quiet_step (s s' : RyobiWssCtrl * world) : Prop :=
  sends (log (snd s')) = sends (log (snd s)) /\
  (sent_counter (fst s') = sent_counter (fst s) \/
   sent_counter (fst s') = 0%Z).

(** The publish counter stays within the threshold, and a socket handle
    is set once something was counted or a thread was started. *)
Definition counter_ok (s : RyobiWssCtrl * world) : Prop :=
  (0 <= sent_counter (fst s) <= 5)%Z /\
  ((0 < sent_counter (fst s))%Z -> ws (fst s) <> None) /\
  (started (log (snd s)) = true -> ws (fst s) <> None).




(** * HTTP client *)

Section HttpFacts.

Variable E : env.

Lemma after_requests_S n method url w :
  after_requests n method url
    (mkWorld (S (http_sent w)) (lib_calls w) (ws_made w) (sleeps w)
             (EvHttp method url :: log w))
  = after_requests (S n) method url w.
Proof.
  unfold after_requests; simpl. f_equal.
  - lia.
  - change (EvHttp method url :: log w) with ([EvHttp method url] ++ log w)%list.
    rewrite app_assoc, <- repeat_cons. reflexivity.
Qed.

Lemma retried_cases o :
  retried o = true ->
  match o with
  | HttpResponse st _ => Z.eqb st 200 = false /\ Z.eqb st 401 = false
  | HttpRequestError _ => True
  end.
Proof.
  destruct o as [st b|err]; simpl; auto.
  intros H. apply andb_true_iff in H. destruct H as [H1 H2].
  apply negb_true_iff in H1, H2. auto.
Qed.

Lemma send_http_loop_step_retried n method url w :
  retried (http_reply E (http_sent w)) = true ->
  send_http_loop E (S n) method url w
  = send_http_loop E n method url
      (mkWorld (S (http_sent w)) (lib_calls w) (ws_made w) (sleeps w)
               (EvHttp method url :: log w)).
Proof.
  intros H. apply retried_cases in H.
  simpl. unfold bind, client_send.
  destruct (http_reply E (http_sent w)) as [st b|err]; auto.
  destruct H as [H1 H2]. rewrite H1, H2. reflexivity.
Qed.

Lemma send_http_loop_exhausted n method url : forall w,
  (forall k, k < n -> retried (http_reply E (http_sent w + k)) = true) ->
  send_http_loop E n method url w
  = (Ret error_retries, after_requests n method url w).
Proof.
  induction n as [|n IH]; intros w H.
  - destruct w; reflexivity.
  - rewrite send_http_loop_step_retried.
    + rewrite IH.
      * now rewrite after_requests_S.
      * intros k Hk; simpl. specialize (H (S k)).
        rewrite Nat.add_succ_r in H. apply H; lia.
    + specialize (H 0). rewrite Nat.add_0_r in H. apply H; lia.
Qed.

Lemma send_http_loop_401 k method url : forall n w body,
  k < n ->
  (forall j, j < k -> retried (http_reply E (http_sent w + j)) = true) ->
  http_reply E (http_sent w + k) = HttpResponse 401 body ->
  send_http_loop E n method url w
  = (Ret error_401, after_requests (S k) method url w).
Proof.
  induction k as [|k IH]; intros n w body Hk Hret H401.
  - destruct n as [|n]; [lia|].
    rewrite Nat.add_0_r in H401.
    simpl. unfold bind, client_send. rewrite H401. simpl.
    destruct w; reflexivity.
  - destruct n as [|n]; [lia|].
    rewrite send_http_loop_step_retried.
    + rewrite (IH n _ body).
      * now rewrite after_requests_S.
      * lia.
      * intros j Hj; simpl. specialize (Hret (S j)).
        rewrite Nat.add_succ_r in Hret. apply Hret; lia.
      * simpl. now rewrite Nat.add_succ_r in H401.
    + specialize (Hret 0). rewrite Nat.add_0_r in Hret. apply Hret; lia.
Qed.

Lemma send_http_200 method url w body :
  http_reply E (http_sent w) = HttpResponse 200 (Some body) ->
  send_http E method url w = (Ret body, after_requests 1 method url w).
Proof.
  intros H. unfold send_http, N_RETRY. simpl. unfold bind, client_send.
  rewrite H. simpl. destruct w; reflexivity.
Qed.

Lemma server_down_retried o : server_down o = true -> retried o = true.
Proof.
  destruct o as [st b|[]]; simpl; try easy.
  intros H. apply orb_true_iff in H.
  destruct H as [H|H]; apply Z.eqb_eq in H; subst; reflexivity.
Qed.

End HttpFacts.

(** * Login *)

Section LoginFacts.

Variable E : env.

Lemma login_after_send url a w resp w' :
  send_http E "POST" url w = (Ret resp, w') ->
  Py.getitem resp "result" = Raise (KeyError "result") ->
  login E url (a, w) = (Raise (KeyError "result"), (a, w')).
Proof.
  intros Hs Hr. unfold login, bind, in_world, lift_res. simpl.
  rewrite Hs. simpl. rewrite Hr. reflexivity.
Qed.

Lemma login_no_id url a w body result :
  http_reply E (http_sent w) = HttpResponse 200 (Some body) ->
  Py.getitem body "result" = Ret (JObj result) ->
  Py.lookup "_id" result = None ->
  login E url (a, w) = (Ret false, (a, after_requests 1 "POST" url w)).
Proof.
  intros Hs Hr Hid. unfold login, bind, in_world, lift_res. simpl.
  rewrite (send_http_200 E _ _ _ _ Hs). simpl. rewrite Hr. simpl.
  rewrite Hid. reflexivity.
Qed.

Lemma login_no_key url a w body result uid auth :
  http_reply E (http_sent w) = HttpResponse 200 (Some body) ->
  Py.getitem body "result" = Ret (JObj result) ->
  Py.lookup "_id" result = Some uid ->
  Py.lookup "auth" result = Some (JObj auth) ->
  Py.lookup "apikey" auth = None ->
  login E url (a, w)
  = (Ret false, (set_user_id uid a, after_requests 1 "POST" url w)).
Proof.
  intros Hs Hr Hid Hauth Hkey. unfold login, bind, in_world, lift_res.
  simpl. rewrite (send_http_200 E _ _ _ _ Hs). simpl. rewrite Hr. simpl.
  rewrite Hid. simpl. rewrite Hauth. simpl. rewrite Hkey. reflexivity.
Qed.

(** [login] never touches the device list. *)
Lemma login_keeps_devices url a w r a' w' :
  login E url (a, w) = (r, (a', w')) -> devices a' = devices a.
Proof.
  unfold login, bind, in_world, lift_res, update, ret. simpl.
  destruct (send_http E "POST" url w) as [[resp|e] w1]; simpl;
    [|intros H; inversion H; reflexivity].
  destruct (Py.getitem resp "result") as [result|e]; simpl;
    [|intros H; inversion H; reflexivity].
  destruct (Py.contains "_id" result) as [[|]|e]; simpl;
    try (intros H; inversion H; reflexivity).
  destruct (Py.getitem result "_id") as [uid|e]; simpl;
    [|intros H; inversion H; reflexivity].
  destruct (Py.getitem result "auth") as [auth|e]; simpl;
    [|intros H; inversion H; reflexivity].
  destruct (Py.contains "apikey" auth) as [[|]|e]; simpl;
    try (intros H; inversion H; reflexivity).
  destruct (Py.getitem auth "apiKey") as [key|e]; simpl;
    intros H; inversion H; reflexivity.
Qed.

End LoginFacts.

(** C1: on the body
    [{"result":{"_id":"u1","auth":{"apiKey":"k1"}}}] with status 200 the
    spec has [login] return true with [user_id = "u1"], [api_key = "k1"].
    The code tests the key ["apikey"] and reads ["apiKey"]: on this body it
    returns false, having stored the user id and no API key. *)
Theorem login_valid_body_returns_false (a : RyobiApi) (w : world) :
  login (env_reply (HttpResponse 200 (Some body_login_ok))) LOGIN_URL (a, w)
  = (Ret false,
     (set_user_id (JStr "u1") a, after_requests 1 "POST" LOGIN_URL w)).
Proof.
  apply (login_no_key _ _ _ _ body_login_ok
           [("_id", JStr "u1"); ("auth", JObj [("apiKey", JStr "k1")])]
           (JStr "u1") [("apiKey", JStr "k1")]); reflexivity.
Qed.

(** The same body read by a fresh client: no API key afterwards. *)
Example login_valid_body_fresh_client :
  login (env_reply (HttpResponse 200 (Some body_login_ok))) LOGIN_URL
        (RyobiApi_init "user" "secret", world0)
  = (Ret false,
     (mkApi "user" "secret" JNull (JStr "u1") [],
      mkWorld 1 0 0 0 [EvHttp "POST" LOGIN_URL])).
Proof. reflexivity. Qed.

(** [login] succeeds when the auth object holds the key under both
    spellings, and stores the value found under ["apiKey"]. *)
Example login_both_spellings :
  login (env_reply (HttpResponse 200 (Some body_login_both_keys))) LOGIN_URL
        (RyobiApi_init "user" "secret", world0)
  = (Ret true,
     (mkApi "user" "secret" (JStr "k1") (JStr "u1") [],
      mkWorld 1 0 0 0 [EvHttp "POST" LOGIN_URL])).
Proof. reflexivity. Qed.

(** C2, as the spec words it, fails: the body
    [{"result":{"_id":"u1","auth":{}}}] lacks [result.auth.apiKey], and
    [login] returns false after overwriting [user_id]. *)
Lemma login_failure_claim_refuted :
  ~ login_failure_claim
      (env_reply (HttpResponse 200 (Some body_login_no_key)))
      body_login_no_key (RyobiApi_init "user" "secret") world0.
Proof.
  intros H. destruct (H eq_refl eq_refl) as [_ [Hu _]].
  vm_compute in Hu. discriminate Hu.
Qed.

(** C2, amended: when the result object of the body lacks [_id], [login]
    returns false and leaves the client as it was; when it has [_id] and
    an [auth] object holding neither [apiKey] nor [apikey], [login]
    returns false and leaves [api_key] as it was, [user_id] having been
    set to [result._id]. *)
Theorem login_failure_frame (E : env) (a : RyobiApi) (w : world)
    (body : json) (result : pydict) :
  http_reply E (http_sent w) = HttpResponse 200 (Some body) ->
  Py.getitem body "result" = Ret (JObj result) ->
  (Py.lookup "_id" result = None ->
   login E LOGIN_URL (a, w)
   = (Ret false, (a, after_requests 1 "POST" LOGIN_URL w)))
  /\
  (forall uid auth,
     Py.lookup "_id" result = Some uid ->
     Py.lookup "auth" result = Some (JObj auth) ->
     Py.lookup "apiKey" auth = None ->
     Py.lookup "apikey" auth = None ->
     login E LOGIN_URL (a, w)
     = (Ret false,
        (set_user_id uid a, after_requests 1 "POST" LOGIN_URL w)) /\
     api_key (set_user_id uid a) = api_key a).
Proof.
  intros Hs Hr. split.
  - intros Hid. now apply (login_no_id E _ _ _ body result).
  - intros uid auth Hid Hauth _ Hkey. split; [|reflexivity].
    now apply (login_no_key E _ _ _ body result uid auth).
Qed.

Lemma login_failure_frame_witness :
  login (env_reply (HttpResponse 200 (Some body_login_empty))) LOGIN_URL
        (RyobiApi_init "user" "secret", world0)
  = (Ret false,
     (RyobiApi_init "user" "secret",
      after_requests 1 "POST" LOGIN_URL world0))
  /\
  login (env_reply (HttpResponse 200 (Some body_login_no_key))) LOGIN_URL
        (RyobiApi_init "user" "secret", world0)
  = (Ret false,
     (set_user_id (JStr "u1") (RyobiApi_init "user" "secret"),
      after_requests 1 "POST" LOGIN_URL world0)).
Proof.
  split.
  - exact (proj1 (login_failure_frame
             (env_reply (HttpResponse 200 (Some body_login_empty)))
             (RyobiApi_init "user" "secret") world0 body_login_empty []
             eq_refl eq_refl) eq_refl).
  - exact (proj1 (proj2 (login_failure_frame
             (env_reply (HttpResponse 200 (Some body_login_no_key)))
             (RyobiApi_init "user" "secret") world0 body_login_no_key
             [("_id", JStr "u1"); ("auth", JObj [])] eq_refl eq_refl)
             (JStr "u1") [] eq_refl eq_refl eq_refl eq_refl)).
Defined.

(** C3: on a 401 [send_http] returns its authentication-failure dict after
    that single request. The spec has [login] turn it into a false return;
    the code indexes the dict with ["result"] and raises [KeyError]. *)
Theorem login_on_401_raises (body : option json) (a : RyobiApi) (w : world) :
  send_http (env_reply (HttpResponse 401 body)) "POST" LOGIN_URL w
  = (Ret error_401, after_requests 1 "POST" LOGIN_URL w)
  /\
  login (env_reply (HttpResponse 401 body)) LOGIN_URL (a, w)
  = (Raise (KeyError "result"), (a, after_requests 1 "POST" LOGIN_URL w)).
Proof.
  assert (Hs : send_http (env_reply (HttpResponse 401 body)) "POST"
                 LOGIN_URL w
               = (Ret error_401, after_requests 1 "POST" LOGIN_URL w)).
  { unfold send_http.
    apply (send_http_loop_401 _ 0 _ _ N_RETRY w body).
    - unfold N_RETRY; lia.
    - intros j Hj; lia.
    - reflexivity. }
  split; [exact Hs|].
  now apply (login_after_send _ _ _ _ error_401).
Qed.

(** C4: when the next [N_RETRY] outcomes are all ones [send_http] retries
    (a status other than 200 and 401, such as 500 or 503, or a
    network-level error such as a timeout), [send_http] sends exactly
    [N_RETRY] = 6 requests and returns the generic failure dict, which
    differs from the one returned on a 401. *)
Theorem send_http_exhausts_retries (E : env) (method url : string)
    (w : world) :
  exhausts_retries E w ->
  send_http E method url w
  = (Ret error_retries, after_requests N_RETRY method url w)
  /\ http_sent (after_requests N_RETRY method url w) = http_sent w + 6
  /\ log (after_requests N_RETRY method url w)
     = (repeat (EvHttp method url) 6 ++ log w)%list
  /\ error_retries <> error_401.
Proof.
  intros H. split; [|split; [|split]].
  - now apply send_http_loop_exhausted.
  - unfold N_RETRY; simpl; lia.
  - reflexivity.
  - discriminate.
Qed.

Lemma env_flaky_down k : k < N_RETRY -> server_down (http_reply env_flaky k) = true.
Proof.
  unfold N_RETRY. intros Hk.
  do 6 (destruct k as [|k]; [reflexivity|]). lia.
Qed.

Lemma send_http_exhausts_retries_witness :
  send_http env_flaky "GET" DEVICES_URL world0
  = (Ret error_retries, after_requests N_RETRY "GET" DEVICES_URL world0)
  /\ error_retries <> error_401.
Proof.
  assert (H : exhausts_retries env_flaky world0).
  { intros k Hk. apply server_down_retried. now apply env_flaky_down. }
  destruct (send_http_exhausts_retries env_flaky "GET" DEVICES_URL world0 H)
    as [H1 [_ [_ H4]]].
  split; assumption.
Defined.

(** * Device enumeration *)

Section DeviceFacts.

Variable E : env.

Lemma make_device_same_credentials a a' result :
  username a' = username a -> password a' = password a ->
  api_key a' = api_key a -> user_id a' = user_id a ->
  make_device a' result = make_device a result.
Proof.
  intros Hu Hp Hk Hi. unfold make_device. now rewrite Hu, Hp, Hk, Hi.
Qed.

(** A completed loop appends one descriptor per item, in order, and
    touches nothing else. *)
Lemma get_devices_loop_completes items : forall a w a' w',
  get_devices_loop items (a, w) = (Ret tt, (a', w')) ->
  w' = w /\
  exists ds,
    Forall2 (fun result d => make_device a result = Ret d) items ds /\
    a' = mkApi (username a) (password a) (api_key a) (user_id a)
               (devices a ++ ds).
Proof.
  induction items as [|result rest IH]; intros a w a' w' H.
  - inversion H; subst. split; [reflexivity|]. exists []. split.
    + constructor.
    + rewrite app_nil_r. now destruct a'.
  - simpl in H. unfold bind, self, lift_res, update in H. simpl in H.
    destruct (make_device a result) as [d|e] eqn:Hd; [|discriminate H].
    apply IH in H. destruct H as [Hw [ds [Hall Ha']]].
    split; [exact Hw|]. exists (d :: ds). split.
    + constructor; [exact Hd|].
      eapply Forall2_impl; [|exact Hall].
      intros r x Hx. rewrite <- Hx. symmetry.
      now apply make_device_same_credentials.
    + rewrite Ha'. simpl. now rewrite <- app_assoc.
Qed.

(** Whatever the outcome of the loop, the list only grows. *)
Lemma get_devices_loop_grows items : forall a w r a' w',
  get_devices_loop items (a, w) = (r, (a', w')) ->
  exists ds, devices a' = (devices a ++ ds)%list.
Proof.
  induction items as [|result rest IH]; intros a w r a' w' H.
  - inversion H; subst. exists []. now rewrite app_nil_r.
  - simpl in H. unfold bind, self, lift_res, update in H. simpl in H.
    destruct (make_device a result) as [d|e].
    + apply IH in H. destruct H as [ds Hds]. exists (d :: ds).
      rewrite Hds. simpl. now rewrite <- app_assoc.
    + inversion H; subst. exists []. now rewrite app_nil_r.
Qed.

Lemma get_devices_grows url a w r a' w' :
  get_devices E url (a, w) = (r, (a', w')) ->
  exists ds, devices a' = (devices a ++ ds)%list.
Proof.
  unfold get_devices, bind, in_world, lift_res, ret. simpl.
  assert (Hnil : exists ds, devices a = (devices a ++ ds)%list)
    by (exists []; now rewrite app_nil_r).
  destruct (send_http E "GET" url w) as [[resp|e] w1]; simpl;
    [|intros H; inversion H; subst; exact Hnil].
  destruct (Py.truthy resp);
    [|intros H; inversion H; subst; exact Hnil].
  destruct (Py.getitem resp "result") as [result|e]; simpl;
    [|intros H; inversion H; subst; exact Hnil].
  destruct (Py.iter result) as [items|e]; simpl;
    [|intros H; inversion H; subst; exact Hnil].
  destruct (get_devices_loop items (a, w1)) as [[[]|e] [a1 w2]] eqn:Hl;
    intros H; inversion H; subst;
    now apply get_devices_loop_grows in Hl.
Qed.

(** What a call that returns [self.devices] has done. *)
Lemma get_devices_returns_self url a w a' w' :
  get_devices E url (a, w) = (Ret SelfDevices, (a', w')) ->
  exists resp result items ds,
    send_http E "GET" url w = (Ret resp, w') /\
    Py.truthy resp = true /\
    Py.getitem resp "result" = Ret result /\
    Py.iter result = Ret items /\
    Forall2 (fun r d => make_device a r = Ret d) items ds /\
    a' = mkApi (username a) (password a) (api_key a) (user_id a)
               (devices a ++ ds).
Proof.
  unfold get_devices, bind, in_world, lift_res, ret. simpl.
  destruct (send_http E "GET" url w) as [[resp|e] w1]; simpl;
    [|discriminate].
  destruct (Py.truthy resp) eqn:Ht; [|discriminate].
  destruct (Py.getitem resp "result") as [result|e] eqn:Hr; simpl;
    [|discriminate].
  destruct (Py.iter result) as [items|e] eqn:Hi; simpl; [|discriminate].
  destruct (get_devices_loop items (a, w1)) as [[[]|e] [a1 w2]] eqn:Hl;
    [|discriminate].
  intros H; inversion H; subst.
  apply get_devices_loop_completes in Hl. destruct Hl as [Hw [ds [Hf Ha]]].
  subst w'. exists resp, result, items, ds. repeat split; assumption.
Qed.

Lemma get_devices_after_send url a w r w' :
  send_http E "GET" url w = (Ret r, w') ->
  Py.truthy r = true ->
  Py.getitem r "result" = Raise (KeyError "result") ->
  get_devices E url (a, w) = (Raise (KeyError "result"), (a, w')).
Proof.
  intros Hs Ht Hr. unfold get_devices, bind, in_world, lift_res. simpl.
  rewrite Hs. simpl. rewrite Ht. rewrite Hr. reflexivity.
Qed.

End DeviceFacts.

(** The device list of the spec's scenario gives one descriptor, with
    [d_id] ["d1"] and [name] ["Garage"]; asked again, the server's device
    is in the list twice. *)
Example get_devices_twice :
  let E := env_reply (HttpResponse 200 (Some body_devices)) in
  let s1 := snd (get_devices E DEVICES_URL
                   (RyobiApi_init "user" "secret", world0)) in
  devices (fst s1) = [device_garage] /\
  devices (fst (snd (get_devices E DEVICES_URL s1)))
  = [device_garage; device_garage].
Proof. split; reflexivity. Qed.

(** C9: when [send_http] receives a 401 or exhausts its retries, what it
    returns is a non-empty dict, hence truthy, without a ["result"] key;
    [get_devices] then skips its error branch, indexes the dict and raises
    [KeyError] to its caller. *)
Theorem get_devices_raises_on_http_failure (E : env) (url : string)
    (a : RyobiApi) (w : world) :
  receives_401 E w \/ exhausts_retries E w ->
  exists r d w',
    send_http E "GET" url w = (Ret r, w') /\
    r = JObj d /\ d <> [] /\ Py.lookup "result" d = None /\
    Py.truthy r = true /\
    get_devices E url (a, w) = (Raise (KeyError "result"), (a, w')).
Proof.
  intros [[k [body [Hk [Hret H401]]]]|Hex].
  - pose proof (send_http_loop_401 E k "GET" url N_RETRY w body Hk Hret H401)
      as Hs.
    eexists error_401, _, _. split; [exact Hs|].
    split; [reflexivity|]. split; [discriminate|].
    split; [reflexivity|]. split; [reflexivity|].
    now apply (get_devices_after_send E url a w error_401).
  - pose proof (send_http_loop_exhausted E N_RETRY "GET" url w Hex) as Hs.
    eexists error_retries, _, _. split; [exact Hs|].
    split; [reflexivity|]. split; [discriminate|].
    split; [reflexivity|]. split; [reflexivity|].
    now apply (get_devices_after_send E url a w error_retries).
Qed.

Lemma get_devices_raises_on_http_failure_witness :
  exists r d w',
    send_http env_flaky "GET" DEVICES_URL world0 = (Ret r, w') /\
    r = JObj d /\ d <> [] /\ Py.lookup "result" d = None /\
    Py.truthy r = true /\
    get_devices env_flaky DEVICES_URL (RyobiApi_init "user" "secret", world0)
    = (Raise (KeyError "result"), (RyobiApi_init "user" "secret", w')).
Proof.
  apply (get_devices_raises_on_http_failure env_flaky DEVICES_URL
           (RyobiApi_init "user" "secret") world0).
  right. intros k Hk. unfold N_RETRY in Hk.
  do 6 (destruct k as [|k]; [reflexivity|]). lia.
Defined.

(** C10: [self.devices] is created empty by [__init__] and only ever
    appended to. Of two calls in sequence that both return the list, the
    second returns the list the first returned followed by the
    descriptors built from the second response; both calls return the
    same object. *)
Theorem get_devices_accumulates (E : env) (url1 url2 : string)
    (a a1 a2 : RyobiApi) (w w1 w1' w2 : world) :
  get_devices E url1 (a, w) = (Ret SelfDevices, (a1, w1)) ->
  get_devices E url2 (a1, w1') = (Ret SelfDevices, (a2, w2)) ->
  exists ds1 ds2,
    built_from E url1 a w w1 ds1 /\
    built_from E url2 a1 w1' w2 ds2 /\
    deref SelfDevices a1 = (devices a ++ ds1)%list /\
    deref SelfDevices a2 = (deref SelfDevices a1 ++ ds2)%list.
Proof.
  intros H1 H2.
  apply get_devices_returns_self in H1, H2.
  destruct H1 as [resp1 [res1 [items1 [ds1 [Hs1 [_ [Hr1 [Hi1 [Hf1 Ha1]]]]]]]]].
  destruct H2 as [resp2 [res2 [items2 [ds2 [Hs2 [_ [Hr2 [Hi2 [Hf2 Ha2]]]]]]]]].
  exists ds1, ds2. split; [|split; [|split]].
  - now exists resp1, res1, items1.
  - now exists resp2, res2, items2.
  - rewrite Ha1. reflexivity.
  - rewrite Ha2. reflexivity.
Qed.

Lemma get_devices_accumulates_witness :
  exists ds1 ds2,
    built_from (env_reply (HttpResponse 200 (Some body_devices)))
      DEVICES_URL (RyobiApi_init "user" "secret") world0
      (after_requests 1 "GET" DEVICES_URL world0) ds1 /\
    built_from (env_reply (HttpResponse 200 (Some body_devices)))
      DEVICES_URL (mkApi "user" "secret" JNull JNull [device_garage])
      (after_requests 1 "GET" DEVICES_URL world0)
      (after_requests 2 "GET" DEVICES_URL world0) ds2 /\
    deref SelfDevices (mkApi "user" "secret" JNull JNull [device_garage])
    = (devices (RyobiApi_init "user" "secret") ++ ds1)%list /\
    deref SelfDevices
      (mkApi "user" "secret" JNull JNull [device_garage; device_garage])
    = (deref SelfDevices (mkApi "user" "secret" JNull JNull [device_garage])
       ++ ds2)%list.
Proof.
  apply (get_devices_accumulates
           (env_reply (HttpResponse 200 (Some body_devices)))
           DEVICES_URL DEVICES_URL); reflexivity.
Defined.

(** * Frame reasoning *)

Section Stable.

Context {S : Type} (R : S -> S -> Prop) `{!PreOrder R}.

Lemma stable_ret {A} (a : A) : stable R (ret a).
Proof. intros s r s' H; inversion H; reflexivity. Qed.

Lemma stable_raise {A} (e : exn) : stable R (@raise S A e).
Proof. intros s r s' H; inversion H; reflexivity. Qed.

Lemma stable_lift_res {A} (x : pyres A) : stable R (lift_res x).
Proof. intros s r s' H; inversion H; reflexivity. Qed.

Lemma stable_bind {A B} (m : M S A) (k : A -> M S B) :
  stable R m -> (forall a, stable R (k a)) -> stable R (bind m k).
Proof.
  intros Hm Hk s r s'. unfold bind.
  destruct (m s) as [[a|e] s1] eqn:H1; intros H.
  - transitivity s1; [exact (Hm _ _ _ H1)|exact (Hk _ _ _ _ H)].
  - inversion H; subst. exact (Hm _ _ _ H1).
Qed.

Lemma stable_try_except {A} (m h : M S A) (catches : exn -> bool) :
  stable R m -> stable R h -> stable R (try_except m catches h).
Proof.
  intros Hm Hh s r s'. unfold try_except.
  destruct (m s) as [[a|e] s1] eqn:H1; intros H.
  - inversion H; subst. exact (Hm _ _ _ H1).
  - destruct (catches e).
    + transitivity s1; [exact (Hm _ _ _ H1)|exact (Hh _ _ _ H)].
    + inversion H; subst. exact (Hm _ _ _ H1).
Qed.

End Stable.

Section StableWorld.

Context {X : Type} (R : X * world -> X * world -> Prop) `{!PreOrder R}.

Lemma stable_self : stable R self.
Proof. intros s r s' H; inversion H; reflexivity. Qed.

Lemma stable_update (f : X -> X) :
  (forall c w, R (c, w) (f c, w)) -> stable R (update f).
Proof. intros Hf [c w] r s' H; inversion H; subst. apply Hf. Qed.

Lemma stable_in_world {A} (m : M world A) :
  (forall c w r w', m w = (r, w') -> R (c, w) (c, w')) ->
  stable R (in_world m).
Proof.
  intros Hm [c w] r s'. unfold in_world. simpl.
  destruct (m w) as [r1 w1] eqn:H1. intros H; inversion H; subst.
  now apply (Hm c w r).
Qed.

End StableWorld.

(** One syntax-directed step of a stability proof. *)
Ltac stable_step :=
  lazymatch goal with
  | |- stable _ (ret _) => apply stable_ret; typeclasses eauto
  | |- stable _ (raise _) => apply stable_raise; typeclasses eauto
  | |- stable _ (lift_res _) => apply stable_lift_res; typeclasses eauto
  | |- stable _ self => apply stable_self; typeclasses eauto
  | |- stable _ (bind _ _) =>
      apply stable_bind; [typeclasses eauto | | intros ]
  | |- stable _ (try_except _ _ _) =>
      apply stable_try_except; [typeclasses eauto | | ]
  | |- stable _ (if ?b then _ else _) => destruct b
  | |- stable _ (match ?x with _ => _ end) => destruct x
  end.

(** * What the HTTP side does to the world *)

Section HttpWorld.

Variable E : env.

Lemma after_requests_0 method url w : after_requests 0 method url w = w.
Proof. now destruct w. Qed.

Lemma send_http_loop_world n method url : forall w r w',
  send_http_loop E n method url w = (r, w') ->
  exists k, w' = after_requests k method url w.
Proof.
  induction n as [|n IH]; intros w r w' H.
  - inversion H; subst. exists 0. now rewrite after_requests_0.
  - simpl in H. unfold bind, client_send in H.
    assert (Hone :
      mkWorld (S (http_sent w)) (lib_calls w) (ws_made w) (sleeps w)
              (EvHttp method url :: log w)
      = after_requests 1 method url w) by reflexivity.
    assert (Hrec : forall r w',
      send_http_loop E n method url
        (mkWorld (S (http_sent w)) (lib_calls w) (ws_made w) (sleeps w)
                 (EvHttp method url :: log w)) = (r, w') ->
      exists k, w' = after_requests k method url w).
    { intros r0 w0 H0. apply IH in H0. destruct H0 as [k Hk].
      exists (S k). now rewrite Hk, after_requests_S. }
    destruct (http_reply E (http_sent w)) as [st body|err].
    + destruct (Z.eqb st 200).
      * exists 1. rewrite <- Hone.
        destruct body; inversion H; reflexivity.
      * destruct (Z.eqb st 401).
        -- exists 1. rewrite <- Hone. inversion H; reflexivity.
        -- now apply Hrec in H.
    + now apply Hrec in H.
Qed.

Lemma login_world url a w r a' w' :
  login E url (a, w) = (r, (a', w')) ->
  exists k, w' = after_requests k "POST" url w.
Proof.
  unfold login, bind, in_world, lift_res, update, ret. simpl.
  destruct (send_http E "POST" url w) as [[resp|e] w1] eqn:Hs;
    apply send_http_loop_world in Hs; simpl;
    [|intros H; inversion H; subst; exact Hs].
  destruct (Py.getitem resp "result") as [result|e]; simpl;
    [|intros H; inversion H; subst; exact Hs].
  destruct (Py.contains "_id" result) as [[|]|e]; simpl;
    try (intros H; inversion H; subst; exact Hs).
  destruct (Py.getitem result "_id") as [uid|e]; simpl;
    [|intros H; inversion H; subst; exact Hs].
  destruct (Py.getitem result "auth") as [auth|e]; simpl;
    [|intros H; inversion H; subst; exact Hs].
  destruct (Py.contains "apikey" auth) as [[|]|e]; simpl;
    try (intros H; inversion H; subst; exact Hs).
  destruct (Py.getitem auth "apiKey") as [key|e]; simpl;
    intros H; inversion H; subst; exact Hs.
Qed.

Lemma get_devices_loop_world items : forall a w r a' w',
  get_devices_loop items (a, w) = (r, (a', w')) -> w' = w.
Proof.
  induction items as [|result rest IH]; intros a w r a' w' H.
  - now inversion H.
  - simpl in H. unfold bind, self, lift_res, update in H. simpl in H.
    destruct (make_device a result) as [d|e].
    + now apply IH in H.
    + now inversion H.
Qed.

Lemma get_devices_world url a w r a' w' :
  get_devices E url (a, w) = (r, (a', w')) ->
  exists k, w' = after_requests k "GET" url w.
Proof.
  unfold get_devices, bind, in_world, lift_res, ret. simpl.
  destruct (send_http E "GET" url w) as [[resp|e] w1] eqn:Hs;
    apply send_http_loop_world in Hs; simpl;
    [|intros H; inversion H; subst; exact Hs].
  destruct (Py.truthy resp);
    [|intros H; inversion H; subst; exact Hs].
  destruct (Py.getitem resp "result") as [result|e]; simpl;
    [|intros H; inversion H; subst; exact Hs].
  destruct (Py.iter result) as [items|e]; simpl;
    [|intros H; inversion H; subst; exact Hs].
  destruct (get_devices_loop items (a, w1)) as [[[]|e] [a1 w2]] eqn:Hl;
    apply get_devices_loop_world in Hl;
    intros H; inversion H; subst; exact Hs.
Qed.

(** A [RyobiApi] method run on the controller changes its inherited
    fields only. *)
Lemma as_api_effect {A} (m : ApiM A) c w r c' w' :
  as_api m (c, w) = (r, (c', w')) ->
  exists a', m (base c, w) = (r, (a', w')) /\ c' = set_base a' c.
Proof.
  unfold as_api. simpl.
  destruct (m (base c, w)) as [r1 [a1 w1]].
  intros H; inversion H; subst. now exists a1.
Qed.

Lemma check_credentials_effect c w r c' w' :
  check_credentials E (c, w) = (r, (c', w')) ->
  exists a' k,
    c' = set_base a' c /\ w' = after_requests k "POST" LOGIN_URL w.
Proof.
  unfold check_credentials, bind, self, ret. simpl.
  assert (Hid : exists a' k,
    c = set_base a' c /\ w = after_requests k "POST" LOGIN_URL w).
  { exists (base c), 0. split; [now destruct c|].
    now rewrite after_requests_0. }
  destruct (Py.truthy (api_key (base c))); simpl;
    [intros H; inversion H; subst; exact Hid|].
  destruct (as_api (login E LOGIN_URL) (c, w)) as [[ok|e] [c1 w1]] eqn:Hl;
    apply as_api_effect in Hl; destruct Hl as [a' [Hl Hc]];
    apply login_world in Hl; destruct Hl as [k Hk].
  - destruct ok; intros H; inversion H; subst; now exists a', k.
  - intros H; inversion H; subst; now exists a', k.
Qed.

End HttpWorld.

(** * Opening the socket *)

Section Setup.

Variable E : env.

(** [wss_setup] runs up to four library calls; the first one that raises
    ends it. *)
Lemma wss_setup_run c w :
  wss_setup E (c, w) =
  let n := lib_calls w in
  let h := ws_made w in
  match lib_raises E n with
  | Some e => (Raise e, (c, after_calls 1 h [] w))
  | None =>
  match lib_raises E (S n) with
  | Some e =>
      (Raise e, (set_ws (Some h) c, after_calls 2 (S h) [EvWsCreate h] w))
  | None =>
  match lib_raises E (S (S n)) with
  | Some e =>
      (Raise e,
       (set_ws (Some h) c,
        after_calls 3 (S h) [EvAuth h; EvWsCreate h] w))
  | None =>
  match lib_raises E (S (S (S n))) with
  | Some e =>
      (Raise e,
       (set_wst (Some h) (set_ws (Some h) c),
        after_calls 4 (S h) [EvSub h; EvAuth h; EvWsCreate h] w))
  | None =>
      (Ret (thread_alive E h),
       (set_wst (Some h) (set_ws (Some h) c),
        after_calls 4 (S h)
          [EvThreadStart h; EvSub h; EvAuth h; EvWsCreate h] w))
  end end end end.
Proof.
  cbv [wss_setup bind new_websocket_app authenticate subscribe new_thread
       thread_start thread_is_alive on_ws in_world lib_call self update
       ret raise emit after_calls].
  simpl.
  destruct (lib_raises E (lib_calls w)); [reflexivity|]. simpl.
  destruct (lib_raises E (S (lib_calls w))); [reflexivity|]. simpl.
  destruct (lib_raises E (S (S (lib_calls w)))); [reflexivity|]. simpl.
  destruct (lib_raises E (S (S (S (lib_calls w))))); [reflexivity|]. simpl.
  destruct (thread_alive E (ws_made w)); reflexivity.
Qed.

End Setup.

Section Connect.

Variable E : env.

(** How [open_wss_thread] ends: without reaching the [try] block, or
    according to what its body did. *)
Lemma open_wss_thread_effect c w r c' w' :
  open_wss_thread E (c, w) = (r, (c', w')) ->
  exists a' k,
    let c1 := set_base a' c in
    let w1 := after_requests k "POST" LOGIN_URL w in
    (c' = c1 /\ w' = w1 /\ r <> Ret true) \/
    (exists b, wss_setup E (c1, w1) = (Ret b, (c', w')) /\ r = Ret b) \/
    (exists e c2,
       wss_setup E (c1, w1) = (Raise e, (c2, w')) /\
       is_WebSocketException e = true /\
       r = Ret false /\ c' = set_socket_state SOCK_ERROR c2) \/
    (exists e,
       wss_setup E (c1, w1) = (Raise e, (c', w')) /\
       is_WebSocketException e = false /\ r = Raise e).
Proof.
  unfold open_wss_thread. unfold bind at 1. intros H.
  destruct (check_credentials E (c, w)) as [[ok|e] [c1 w1]] eqn:Hc;
    apply check_credentials_effect in Hc; destruct Hc as [a' [k [Hc Hw]]];
    exists a', k; simpl; subst c1 w1.
  2:{ inversion H; subst. left. now repeat split. }
  destruct ok; simpl in H.
  2:{ inversion H; subst. left. now repeat split. }
  unfold try_except in H.
  destruct (wss_setup E _) as [[b|e] [c2 w2]] eqn:Hs.
  - inversion H; subst. right; left. now exists b.
  - destruct (is_WebSocketException e) eqn:He.
    + unfold bind, update, ret in H. simpl in H.
      inversion H; subst. right; right; left. now exists e, c2.
    + inversion H; subst. right; right; right. now exists e.
Qed.

Lemma fire_all_counters cbs : forall c w r c' w',
  fire_all cbs (c, w) = (r, (c', w')) ->
  r = Ret tt /\ lib_calls w' = lib_calls w /\ sleeps w' = sleeps w /\
  ws_made w' = ws_made w /\ http_sent w' = http_sent w.
Proof.
  induction cbs as [|cb rest IH]; intros c w r c' w' H.
  - inversion H; subst. now repeat split.
  - simpl in H. unfold bind, fire in H.
    destruct (run_callback cb (c, w)) as [r1 [c1 w1]] eqn:Hcb.
    assert (Hw : w1 = w).
    { destruct cb as [| | | |[m|]];
        cbv [run_callback on_open on_close on_error on_pong on_message
             update bind ret raise] in Hcb; simpl in Hcb;
        now inversion Hcb. }
    subst w1. apply IH in H. simpl in H. exact H.
Qed.

Lemma sleep_counters c w r c' w' :
  sleep E (c, w) = (r, (c', w')) ->
  r = Ret tt /\ lib_calls w' = lib_calls w /\ sleeps w' = S (sleeps w).
Proof.
  unfold sleep. simpl. destruct (started (log w)).
  - intros H. apply fire_all_counters in H. simpl in H. tauto.
  - intros H; inversion H; subst. now repeat split.
Qed.

Lemma sleep_quiet c w r c' w' :
  sleep E (c, w) = (r, (c', w')) ->
  bg_events E (sleeps w) = [] -> c' = c.
Proof.
  unfold sleep. simpl. intros H Hq. rewrite Hq in H.
  destruct (started (log w)); now inversion H.
Qed.

Lemma connect_poll_effect n : forall c w r c' w',
  connect_poll E n (c, w) = (r, (c', w')) ->
  lib_calls w' = lib_calls w /\
  sleeps w <= sleeps w' <= sleeps w + n /\
  (sleeps w' = sleeps w + n -> r = Ret false) /\
  (r = Ret true -> socket_state c' = SOCK_CONNECTED) /\
  (r = Ret true \/ r = Ret false) /\
  ((forall k, sleeps w <= k < sleeps w' -> bg_events E k = []) -> c' = c).
Proof.
  induction n as [|n IH]; intros c w r c' w' H.
  - inversion H; subst. repeat split; auto; try lia. discriminate.
  - simpl in H. unfold bind, self, ret in H. simpl in H.
    destruct (sock_state_eqb (socket_state c) SOCK_CONNECTED) eqn:Hst.
    + inversion H; subst. repeat split; auto; try lia.
      intros _. now destruct (socket_state c').
    + destruct (sleep E (c, w)) as [r1 [c1 w1]] eqn:Hsl.
      pose proof (sleep_quiet _ _ _ _ _ Hsl) as Hq.
      apply sleep_counters in Hsl. destruct Hsl as [Hr1 [Hl1 Hs1]].
      subst r1. apply IH in H.
      destruct H as [Hl [Hle [Hto [Hconn [Hb Hquiet]]]]].
      split; [congruence|]. split; [lia|].
      split; [intros Hs; apply Hto; lia|].
      split; [exact Hconn|]. split; [exact Hb|].
      intros Hk. rewrite Hquiet.
      * apply Hq. apply Hk. lia.
      * intros k Hr. apply Hk. lia.
Qed.

Lemma connect_wss_run c w :
  connect_wss E (c, w) =
  if sock_state_eqb (socket_state c) SOCK_CONNECTED then (Ret true, (c, w))
  else match open_wss_thread E (c, w) with
       | (Ret true, s1) => connect_poll E 15 s1
       | (Ret false, s1) => (Ret false, s1)
       | (Raise e, s1) => (Raise e, s1)
       end.
Proof.
  unfold connect_wss, bind, self, ret. cbn [fst snd].
  destruct (sock_state_eqb (socket_state c) SOCK_CONNECTED);
    [reflexivity|].
  now destruct (open_wss_thread E (c, w)) as [[[|]|e] s1].
Qed.

Lemma connect_wss_connected c w :
  socket_state c = SOCK_CONNECTED ->
  connect_wss E (c, w) = (Ret true, (c, w)).
Proof.
  intros H. unfold connect_wss, bind, self, ret. simpl. now rewrite H.
Qed.

(** Facts about the [try] body: it does not sleep, leaves
    [socket_state] alone, and a library call that raised is the last
    one made and decides the outcome. *)
Lemma wss_setup_effect c w r c' w' :
  wss_setup E (c, w) = (r, (c', w')) ->
  sleeps w' = sleeps w /\
  socket_state c' = socket_state c /\
  forall k e,
    lib_calls w <= k < lib_calls w' -> lib_raises E k = Some e ->
    r = Raise e.
Proof.
  rewrite wss_setup_run. cbv zeta.
  destruct (lib_raises E (lib_calls w)) as [e0|] eqn:H0.
  { intros H; inversion H; subst. repeat split. simpl.
    intros k e Hk He. assert (k = lib_calls w) by lia. congruence. }
  destruct (lib_raises E (S (lib_calls w))) as [e1|] eqn:H1.
  { intros H; inversion H; subst. repeat split. simpl.
    intros k e Hk He.
    assert (Hc : k = lib_calls w \/ k = S (lib_calls w)) by lia.
    destruct Hc; congruence. }
  destruct (lib_raises E (S (S (lib_calls w)))) as [e2|] eqn:H2.
  { intros H; inversion H; subst. repeat split. simpl.
    intros k e Hk He.
    assert (Hc : k = lib_calls w \/ k = S (lib_calls w) \/
                 k = S (S (lib_calls w))) by lia.
    destruct Hc as [|[|]]; congruence. }
  destruct (lib_raises E (S (S (S (lib_calls w))))) as [e3|] eqn:H3.
  { intros H; inversion H; subst. repeat split. simpl.
    intros k e Hk He.
    assert (Hc : k = lib_calls w \/ k = S (lib_calls w) \/
                 k = S (S (lib_calls w)) \/
                 k = S (S (S (lib_calls w)))) by lia.
    destruct Hc as [|[|[|]]]; congruence. }
  intros H; inversion H; subst. repeat split. simpl.
  intros k e Hk He.
  assert (Hc : k = lib_calls w \/ k = S (lib_calls w) \/
               k = S (S (lib_calls w)) \/
               k = S (S (S (lib_calls w)))) by lia.
  destruct Hc as [|[|[|]]]; congruence.
Qed.

End Connect.

(** C5: called while [socket_state] is [Connected], [connect_wss] returns
    true at once; the controller (socket handle, thread handle,
    [sent_counter], [socket_state] and all other fields) and the world
    (no socket created, no thread started, nothing sent) are as before. *)
Theorem connect_wss_when_connected (E : env) (c : RyobiWssCtrl)
    (w : world) :
  socket_state c = SOCK_CONNECTED ->
  connect_wss E (c, w) = (Ret true, (c, w)).
Proof. apply connect_wss_connected. Qed.

Lemma connect_wss_when_connected_witness :
  connect_wss env_silent (set_socket_state SOCK_CONNECTED ctrl_keyed, world0)
  = (Ret true, (set_socket_state SOCK_CONNECTED ctrl_keyed, world0)).
Proof.
  apply (connect_wss_when_connected env_silent
           (set_socket_state SOCK_CONNECTED ctrl_keyed) world0).
  reflexivity.
Defined.


(** An exception of the threading library raised during setup is not
    turned into a false return either: it reaches the caller. *)
Example connect_wss_thread_start_raises :
  connect_wss env_no_thread (ctrl_keyed, world0)
  = (Raise RuntimeError,
     (set_wst (Some 0) (set_ws (Some 0) ctrl_keyed),
      mkWorld 0 4 1 0 [EvSub 0; EvAuth 0; EvWsCreate 0])).
Proof. reflexivity. Qed.



(** * The ordering invariant *)

Lemma log_ok_quiet e l : quiet e = true -> log_ok (e :: l) = log_ok l.
Proof. now destruct e. Qed.

Lemma started_cons e l : started l = true -> started (e :: l) = true.
Proof. intros H. simpl. rewrite H. apply orb_true_r. Qed.

Lemma log_ok_requests k method url l :
  log_ok (repeat (EvHttp method url) k ++ l) = log_ok l.
Proof. induction k; simpl; auto. Qed.

Lemma started_requests k method url l :
  started (repeat (EvHttp method url) k ++ l) = started l.
Proof. induction k; simpl; auto. Qed.


#[local] Instance keeps_inv_preorder : PreOrder keeps_inv.
Proof.
  split.
  - intros s H. exact H.
  - intros a b c Hab Hbc H. exact (Hbc (Hab H)).
Qed.

(** Changing fields other than [socket_state], or leaving [Connected]. *)
Lemma inv_update (f : RyobiWssCtrl -> RyobiWssCtrl) c w :
  (socket_state (f c) = SOCK_CONNECTED -> socket_state c = SOCK_CONNECTED) ->
  keeps_inv (c, w) (f c, w).
Proof. intros Hf [H1 H2]. split; [exact H1|]. intros H. auto. Qed.

Lemma inv_emit_quiet e c w i m :
  quiet e = true ->
  keeps_inv (c, w)
    (c, mkWorld (http_sent w) i m (sleeps w) (e :: log w)).
Proof.
  intros Hq [H1 H2]. split; cbn [fst snd log].
  - now rewrite log_ok_quiet.
  - intros H. apply started_cons. auto.
Qed.

Lemma inv_requests a k method url c w :
  keeps_inv (c, w) (set_base a c, after_requests k method url w).
Proof.
  intros [H1 H2]. split; simpl.
  - now rewrite log_ok_requests.
  - rewrite started_requests. exact H2.
Qed.

Section Invariant.

Variable E : env.

Lemma stable_inv_update f :
  (forall c, socket_state (f c) = SOCK_CONNECTED ->
             socket_state c = SOCK_CONNECTED) ->
  stable keeps_inv (update f).
Proof.
  intros Hf. apply stable_update. intros c w. apply inv_update. apply Hf.
Qed.

Lemma stable_inv_lib_call e :
  quiet e = true -> stable keeps_inv (in_world (lib_call E e)).
Proof.
  intros Hq. apply stable_in_world. intros c w r w'. unfold lib_call, emit.
  destruct (lib_raises E (lib_calls w)); intros H; inversion H; subst.
  - intros [H1 H2]. now split.
  - simpl. now apply inv_emit_quiet.
Qed.

Lemma stable_inv_close h :
  stable keeps_inv
    (in_world (fun w : world => (Ret tt, emit (EvClose h) w))).
Proof.
  apply stable_in_world. intros c w r w' H; inversion H; subst.
  unfold emit. now apply inv_emit_quiet.
Qed.

Lemma stable_inv_as_api_login url :
  stable keeps_inv (as_api (login E url)).
Proof.
  intros [c w] r [c' w'] H. apply as_api_effect in H.
  destruct H as [a' [H Hc]]. apply login_world in H. destruct H as [k Hk].
  subst. apply inv_requests.
Qed.

Lemma stable_inv_as_api_get_devices url :
  stable keeps_inv (as_api (get_devices E url)).
Proof.
  intros [c w] r [c' w'] H. apply as_api_effect in H.
  destruct H as [a' [H Hc]]. apply get_devices_world in H.
  destruct H as [k Hk]. subst. apply inv_requests.
Qed.

Lemma stable_inv_check_credentials :
  stable keeps_inv (check_credentials E).
Proof.
  intros [c w] r [c' w'] H. apply check_credentials_effect in H.
  destruct H as [a' [k [Hc Hw]]]. subst. apply inv_requests.
Qed.

(** The [try] body keeps the invariant, also if [socket_state] is then
    set to [Error], and when it returns a thread has been started. *)
Lemma wss_setup_inv c w r c' w' :
  wss_setup E (c, w) = (r, (c', w')) ->
  Inv (c, w) ->
  Inv (c', w') /\ Inv (set_socket_state SOCK_ERROR c', w') /\
  (forall b, r = Ret b -> started (log w') = true).
Proof.
  rewrite wss_setup_run. cbv zeta. intros H [H1 H2].
  destruct (lib_raises E (lib_calls w));
    [|destruct (lib_raises E (S (lib_calls w)));
      [|destruct (lib_raises E (S (S (lib_calls w))));
        [|destruct (lib_raises E (S (S (S (lib_calls w)))))]]];
    inversion H; subst; clear H; unfold Inv; simpl;
    rewrite ?Nat.eqb_refl; simpl;
    (split; [|split]);
    try (split; [assumption|]); try discriminate; try reflexivity;
    try (intros Hs; rewrite ?H2; auto using orb_true_r);
    try (intros b Hb; discriminate Hb).
Qed.

Lemma stable_inv_open_wss_thread : stable keeps_inv (open_wss_thread E).
Proof.
  intros [c w] r [c' w'] H Hinv. apply open_wss_thread_effect in H.
  destruct H as [a' [k H]]. cbv zeta in H.
  pose proof (inv_requests a' k "POST" LOGIN_URL c w Hinv) as Hinv1.
  destruct H as [[Hc [Hw Hr]]|[[b [Hs Hr]]|[[e0 [c2 [Hs [He [Hr Hc]]]]]
                                           |[e0 [Hs [He Hr]]]]]].
  - now subst.
  - now apply wss_setup_inv in Hs.
  - apply wss_setup_inv in Hs; [|exact Hinv1]. subst. tauto.
  - now apply wss_setup_inv in Hs.
Qed.

Lemma open_wss_thread_started c w c' w' :
  open_wss_thread E (c, w) = (Ret true, (c', w')) ->
  Inv (c, w) -> started (log w') = true.
Proof.
  intros H Hinv. apply open_wss_thread_effect in H.
  destruct H as [a' [k H]]. cbv zeta in H.
  pose proof (inv_requests a' k "POST" LOGIN_URL c w Hinv) as Hinv1.
  destruct H as [[Hc [Hw Hr]]|[[b [Hs Hr]]|[[e0 [c2 [Hs [He [Hr Hc]]]]]
                                           |[e0 [Hs [He Hr]]]]]];
    try congruence.
  apply wss_setup_inv in Hs; [|exact Hinv1].
  destruct Hs as [_ [_ Hst]]. now apply (Hst b).
Qed.

(** A callback run once a thread has been started keeps the invariant. *)
Lemma fire_inv cb c w r c' w' :
  fire cb (c, w) = (r, (c', w')) ->
  started (log w) = true -> Inv (c, w) ->
  Inv (c', w') /\ started (log w') = true.
Proof.
  intros H Hst [H1 H2]. simpl in H1, H2. unfold fire in H.
  destruct (run_callback cb (c, w)) as [r1 [c1 w1]] eqn:Hcb.
  inversion H; subst; clear H.
  assert (Hw : w1 = w).
  { destruct cb as [| | | |[m|]];
      cbv [run_callback on_open on_close on_error on_pong on_message
           update bind ret raise] in Hcb; simpl in Hcb;
      now inversion Hcb. }
  subst w1. unfold Inv. simpl. rewrite Hst, H1. simpl.
  repeat split; auto using orb_true_r.
Qed.

Lemma fire_all_inv cbs : forall c w r c' w',
  fire_all cbs (c, w) = (r, (c', w')) ->
  started (log w) = true -> Inv (c, w) -> Inv (c', w').
Proof.
  induction cbs as [|cb rest IH]; intros c w r c' w' H Hst Hinv.
  - now inversion H; subst.
  - simpl in H. unfold bind in H.
    destruct (fire cb (c, w)) as [r1 [c1 w1]] eqn:Hf.
    assert (Hr1 : r1 = Ret tt).
    { unfold fire in Hf. destruct (run_callback cb (c, w)) as [? [? ?]].
      now inversion Hf. }
    subst r1. apply fire_inv in Hf; auto. destruct Hf as [Hi1 Hs1].
    now apply IH in H.
Qed.

Lemma stable_inv_sleep : stable keeps_inv (sleep E).
Proof.
  intros [c w] r [c' w'] H Hinv. unfold sleep in H. simpl in H.
  destruct (started (log w)) eqn:Hst.
  - apply fire_all_inv in H; auto.
  - inversion H; subst. destruct Hinv as [H1 H2]. split; simpl; auto.
Qed.

Lemma stable_inv_connect_poll n : stable keeps_inv (connect_poll E n).
Proof.
  induction n as [|n IH]; simpl.
  - apply stable_ret; typeclasses eauto.
  - repeat stable_step; auto using stable_inv_sleep.
Qed.

Lemma stable_inv_connect_wss : stable keeps_inv (connect_wss E).
Proof.
  unfold connect_wss.
  repeat stable_step;
    auto using stable_inv_open_wss_thread, stable_inv_connect_poll.
Qed.

Lemma stable_inv_on_ws_lib e :
  (forall h, quiet (e h) = true) ->
  stable keeps_inv (on_ws (fun h => lib_call E (e h))).
Proof.
  intros Hq. unfold on_ws. repeat stable_step.
  now apply stable_inv_lib_call.
Qed.

Lemma stable_inv_dead_link_check : stable keeps_inv dead_link_check.
Proof.
  unfold dead_link_check, ws_close, on_ws.
  repeat stable_step;
    try (apply stable_inv_update; intros c0; simpl; auto; discriminate).
  apply stable_inv_close.
Qed.

Lemma stable_inv_publish_loop n msg :
  stable keeps_inv (publish_loop E n msg).
Proof.
  induction n as [|n IH]; simpl.
  - apply stable_ret; typeclasses eauto.
  - unfold ws_send.
    repeat stable_step;
      auto using stable_inv_connect_wss;
      try (apply stable_inv_update; intros c0; simpl; auto; discriminate).
    now apply stable_inv_on_ws_lib.
Qed.

Lemma stable_inv_publish_wss msg : stable keeps_inv (publish_wss E msg).
Proof.
  unfold publish_wss.
  repeat stable_step;
    auto using stable_inv_dead_link_check, stable_inv_publish_loop.
Qed.

Lemma step_inv s s' : step E s s' -> Inv s -> Inv s'.
Proof.
  intros H. destruct H as [url r s s' H|url r s s' H|r s s' H|r s s' H
                          |r s s' H|msg r s s' H|cb r s s' Hst H].
  - exact (stable_inv_as_api_login url _ _ _ H).
  - exact (stable_inv_as_api_get_devices url _ _ _ H).
  - exact (stable_inv_check_credentials _ _ _ H).
  - exact (stable_inv_open_wss_thread _ _ _ H).
  - exact (stable_inv_connect_wss _ _ _ H).
  - exact (stable_inv_publish_wss msg _ _ _ H).
  - destruct s as [c w], s' as [c' w']. intros Hinv.
    now apply (fire_inv cb c w r c' w').
Qed.

Lemma reachable_inv s : reachable E s -> Inv s.
Proof.
  induction 1 as [u p k uid did|u p k uid did|s s' Hr IH Hs].
  - split; [reflexivity|discriminate].
  - split; [reflexivity|discriminate].
  - exact (step_inv _ _ Hs IH).
Qed.

End Invariant.

(** ** Reading the invariant back as an order of events *)

Lemma started_split l :
  started l = true ->
  exists newer h older, l = (newer ++ EvThreadStart h :: older)%list.
Proof.
  induction l as [|e l IH]; [discriminate|]. simpl. intros H.
  destruct e; simpl in H;
    try (destruct (IH H) as [newer [h' [older Hl]]];
         eexists (_ :: newer), h', older; rewrite Hl; reflexivity).
  now exists [], h, l.
Qed.

Lemma log_ok_suffix newer older :
  log_ok (newer ++ older) = true -> log_ok older = true.
Proof.
  induction newer as [|e newer IH]; [auto|]. simpl.
  destruct e; auto; intros H; apply andb_true_iff in H; tauto.
Qed.

Lemma is_auth_split h l :
  existsb (is_auth h) l = true ->
  exists b c, l = (b ++ EvAuth h :: c)%list.
Proof.
  induction l as [|e l IH]; [discriminate|]. simpl. intros H.
  apply orb_true_iff in H. destruct H as [H|H].
  - destruct e; try discriminate. simpl in H. apply Nat.eqb_eq in H.
    subst. now exists [], l.
  - destruct (IH H) as [b [c Hl]]. exists (e :: b), c. now rewrite Hl.
Qed.

Lemma auth_then_sub_split h l :
  auth_then_sub h l = true -> frames_sent h l.
Proof.
  unfold frames_sent.
  induction l as [|e l IH]; [discriminate|]. simpl. intros H.
  assert (Hrec : auth_then_sub h l = true ->
                 exists a b c,
                   e :: l = (a ++ EvSub h :: b ++ EvAuth h :: c)%list).
  { intros H'. destruct (IH H') as [a [b [c Hl]]].
    exists (e :: a), b, c. now rewrite Hl. }
  destruct e; auto.
  destruct (Nat.eqb h h0) eqn:Hh; auto.
  apply Nat.eqb_eq in Hh. subst h0.
  destruct (is_auth_split _ _ H) as [b [c Hl]].
  exists [], b, c. now rewrite Hl.
Qed.

Lemma log_ok_thread_start newer h older :
  log_ok (newer ++ EvThreadStart h :: older) = true -> frames_sent h older.
Proof.
  intros Hok. apply log_ok_suffix in Hok. simpl in Hok.
  apply andb_true_iff in Hok. destruct Hok as [Hat _].
  now apply auth_then_sub_split.
Qed.

Lemma log_ok_frames l :
  log_ok l = true -> started l = true -> frames_before_thread l.
Proof.
  intros Hok Hst. destruct (started_split _ Hst) as [newer [h [older Hl]]].
  subst l. exists h, newer, older. split; [reflexivity|].
  now apply (log_ok_thread_start newer).
Qed.

Lemma log_ok_callback newer cb older :
  log_ok (newer ++ EvCallback cb :: older) = true ->
  frames_before_thread older.
Proof.
  intros Hok. apply log_ok_suffix in Hok. simpl in Hok.
  apply andb_true_iff in Hok. destruct Hok as [Hst Hok].
  now apply log_ok_frames.
Qed.

Lemma connect_wss_true E c w c' w' :
  connect_wss E (c, w) = (Ret true, (c', w')) ->
  socket_state c' = SOCK_CONNECTED.
Proof.
  rewrite connect_wss_run.
  destruct (sock_state_eqb (socket_state c) SOCK_CONNECTED) eqn:Hst.
  - intros H; inversion H; subst. now destruct (socket_state c').
  - destruct (open_wss_thread E (c, w)) as [[[|]|e] [c1 w1]];
      try discriminate.
    intros H. apply connect_poll_effect in H. tauto.
Qed.

(** C7: in every state the controller can reach, a call of [connect_wss]
    that returns true leaves a log in which a thread has been started,
    every thread start comes after the authentication frame and then the
    subscription frame were sent on its socket, and every callback run by
    the network thread (inbound messages among them) comes after such a
    start. *)
Theorem connect_wss_frames_first (E : env)
    (s s' : RyobiWssCtrl * world) :
  reachable E s ->
  connect_wss E s = (Ret true, s') ->
  frames_before_thread (log (snd s')) /\
  (forall newer h older,
     log (snd s') = (newer ++ EvThreadStart h :: older)%list ->
     frames_sent h older) /\
  (forall newer cb older,
     log (snd s') = (newer ++ EvCallback cb :: older)%list ->
     frames_before_thread older).
Proof.
  intros Hr Hc.
  pose proof (stable_inv_connect_wss E _ _ _ Hc (reachable_inv E s Hr))
    as [Hok Hst].
  destruct s as [c w], s' as [c' w'].
  apply connect_wss_true in Hc. simpl in *.
  split; [|split].
  - apply log_ok_frames; auto.
  - intros newer h older Hl. rewrite Hl in Hok.
    now apply log_ok_thread_start in Hok.
  - intros newer cb older Hl. rewrite Hl in Hok.
    now apply log_ok_callback in Hok.
Qed.

Lemma connect_wss_frames_first_witness :
  frames_before_thread
    [EvCallback CbOpen; EvSleep; EvThreadStart 0; EvSub 0; EvAuth 0;
     EvWsCreate 0]
  /\
  (forall newer h older,
     [EvCallback CbOpen; EvSleep; EvThreadStart 0; EvSub 0; EvAuth 0;
      EvWsCreate 0] = (newer ++ EvThreadStart h :: older)%list ->
     frames_sent h older) /\
  (forall newer cb older,
     [EvCallback CbOpen; EvSleep; EvThreadStart 0; EvSub 0; EvAuth 0;
      EvWsCreate 0] = (newer ++ EvCallback cb :: older)%list ->
     frames_before_thread older).
Proof.
  apply (connect_wss_frames_first env_opens (ctrl_keyed, world0)
           (set_socket_state SOCK_CONNECTED
              (set_wst (Some 0) (set_ws (Some 0) ctrl_keyed)),
            mkWorld 0 4 1 1
              [EvCallback CbOpen; EvSleep; EvThreadStart 0; EvSub 0;
               EvAuth 0; EvWsCreate 0])).
  - apply reach_init.
  - reflexivity.
Defined.

(** * The publish counter *)

#[local] Instance keeps_count_preorder : PreOrder keeps_count.
Proof.
  split.
  - intros s. split; auto.
  - intros a b c [Hab1 Hab2] [Hbc1 Hbc2]. split; [lia|].
    intros H. rewrite Hbc2, Hab2; lia.
Qed.




Section Counter.

Variable E : env.











(** The dead-link block does nothing below the threshold. *)
Lemma dead_link_check_below c w :
  (sent_counter c < 5)%Z -> dead_link_check (c, w) = (Ret tt, (c, w)).
Proof.
  intros H. unfold dead_link_check, bind, self, ret. simpl.
  apply Z.leb_gt in H. now rewrite H.
Qed.

(** At the threshold it resets the counter, closes the socket and marks
    the state closed. *)
Lemma dead_link_check_reached c w h :
  (5 <= sent_counter c)%Z -> ws c = Some h ->
  dead_link_check (c, w)
  = (Ret tt,
     (set_socket_state SOCK_CLOSE (set_sent_counter 0 c),
      emit (EvClose h) w)).
Proof.
  intros H Hws.
  unfold dead_link_check, ws_close, on_ws, bind, self, update, in_world,
    ret.
  simpl. apply Z.leb_le in H. rewrite H. simpl. rewrite Hws. reflexivity.
Qed.


(** One round of the publish loop. *)
Lemma publish_loop_run n msg c w :
  publish_loop E (S n) msg (c, w) =
  if sock_state_eqb (socket_state c) SOCK_CONNECTED then
    match ws c with
    | None => (Raise AttributeError, (c, w))
    | Some h =>
        let w1 := mkWorld (http_sent w) (S (lib_calls w)) (ws_made w)
                          (sleeps w) (log w) in
        match lib_raises E (lib_calls w) with
        | None =>
            (Ret true,
             (set_sent_counter (sent_counter c + 1) c,
              emit (EvSend h msg) w1))
        | Some e =>
            if is_WebSocketConnectionClosedException e
            then publish_loop E n msg (set_socket_state SOCK_CLOSE c, w1)
            else (Raise e, (c, w1))
        end
    end
  else
    match connect_wss E (c, w) with
    | (Ret _, s1) => publish_loop E n msg s1
    | (Raise e, s1) => (Raise e, s1)
    end.
Proof.
  cbn [publish_loop].
  generalize (publish_loop E n msg) as again.
  generalize (connect_wss E) as connect. intros connect again.
  cbv [bind self try_except ws_send on_ws in_world lib_call update ret
       raise fst snd].
  destruct (sock_state_eqb (socket_state c) SOCK_CONNECTED).
  - destruct (ws c) as [h|]; [|reflexivity].
    destruct (lib_raises E (lib_calls w)) as [e|]; [|reflexivity].
    now destruct (is_WebSocketConnectionClosedException e).
  - now destruct (connect (c, w)) as [[b|e] s1].
Qed.







End Counter.



(** * Further properties of the HTTP client *)

Section HttpMore.

Variable E : env.

(** Retried outcomes only use up attempts. *)
Lemma send_http_loop_skip k method url : forall n w,
  (forall j, j < k -> retried (http_reply E (http_sent w + j)) = true) ->
  send_http_loop E (k + n) method url w
  = send_http_loop E n method url (after_requests k method url w).
Proof.
  induction k as [|k IH]; intros n w H.
  - now rewrite after_requests_0.
  - change (S k + n) with (S (k + n)).
    rewrite send_http_loop_step_retried.
    + rewrite IH.
      * now rewrite after_requests_S.
      * intros j Hj; simpl. specialize (H (S j)).
        rewrite Nat.add_succ_r in H. apply H; lia.
    + specialize (H 0). rewrite Nat.add_0_r in H. apply H; lia.
Qed.

Lemma send_http_decided k o method url w :
  decided_at E w k o ->
  send_http E method url w
  = send_http_loop E (N_RETRY - k) method url
      (after_requests k method url w) /\
  exists n, N_RETRY - k = S n /\
  http_reply E (http_sent (after_requests k method url w)) = o.
Proof.
  intros [Hk [Hret Ho]]. split.
  - unfold send_http. rewrite <- (send_http_loop_skip k) by exact Hret.
    f_equal. lia.
  - exists (N_RETRY - k - 1). split; [lia|].
    simpl. now rewrite Nat.add_comm.
Qed.

Lemma send_http_loop_bound n method url : forall w r w',
  send_http_loop E n method url w = (r, w') ->
  exists k, k <= n /\ (0 < n -> 0 < k) /\ w' = after_requests k method url w.
Proof.
  induction n as [|n IH]; intros w r w' H.
  - inversion H; subst. exists 0. repeat split; try lia.
    now rewrite after_requests_0.
  - simpl in H. unfold bind, client_send in H.
    assert (Hone :
      mkWorld (S (http_sent w)) (lib_calls w) (ws_made w) (sleeps w)
              (EvHttp method url :: log w)
      = after_requests 1 method url w) by reflexivity.
    assert (Hrec : forall r w',
      send_http_loop E n method url
        (mkWorld (S (http_sent w)) (lib_calls w) (ws_made w) (sleeps w)
                 (EvHttp method url :: log w)) = (r, w') ->
      exists k, k <= S n /\ (0 < S n -> 0 < k) /\
                w' = after_requests k method url w).
    { intros r0 w0 H0. apply IH in H0. destruct H0 as [k [Hk [_ Hw]]].
      exists (S k). repeat split; try lia.
      now rewrite Hw, after_requests_S. }
    assert (Hstop : exists k, k <= S n /\ (0 < S n -> 0 < k) /\
              after_requests 1 method url w = after_requests k method url w)
      by (exists 1; repeat split; lia).
    destruct (http_reply E (http_sent w)) as [st body|err].
    + destruct (Z.eqb st 200).
      * rewrite Hone in H. destruct body; inversion H; subst; exact Hstop.
      * destruct (Z.eqb st 401).
        -- rewrite Hone in H. inversion H; subst; exact Hstop.
        -- now apply Hrec in H.
    + now apply Hrec in H.
Qed.

End HttpMore.

(** X1: the first outcome that is not retried decides [send_http]: when
    it is a 200 with a JSON body, coming after [k] retried outcomes,
    [send_http] returns that body after [k + 1] requests and sends no
    further one. *)
Theorem send_http_returns_first_200 (E : env) (method url : string)
    (w : world) (k : nat) (j : json) :
  decided_at E w k (HttpResponse 200 (Some j)) ->
  send_http E method url w = (Ret j, after_requests (S k) method url w).
Proof.
  intros H. destruct (send_http_decided E k _ method url w H)
    as [Hs [n [Hn Ho]]].
  rewrite Hs, Hn. cbn [send_http_loop]. unfold bind, client_send.
  rewrite Ho. reflexivity.
Qed.

Lemma env_recovers_decided :
  decided_at env_recovers world0 2
    (HttpResponse 200 (Some body_login_both_keys)).
Proof.
  split; [unfold N_RETRY; lia|]. split; [|reflexivity].
  intros j Hj. do 2 (destruct j as [|j]; [reflexivity|]). lia.
Defined.

Lemma send_http_returns_first_200_witness :
  send_http env_recovers "POST" LOGIN_URL world0
  = (Ret body_login_both_keys, after_requests 3 "POST" LOGIN_URL world0).
Proof.
  apply (send_http_returns_first_200 env_recovers "POST" LOGIN_URL world0 2).
  exact env_recovers_decided.
Defined.

(** X2: when the deciding outcome is a 200 whose body is not JSON,
    [resp.json()] raises inside the [try] block; the [except] clause names
    [httpx.RequestError] only, so the error leaves [send_http] at once,
    without another attempt. *)
Theorem send_http_raises_on_bad_body (E : env) (method url : string)
    (w : world) (k : nat) :
  decided_at E w k (HttpResponse 200 None) ->
  send_http E method url w
  = (Raise ValueError, after_requests (S k) method url w).
Proof.
  intros H. destruct (send_http_decided E k _ method url w H)
    as [Hs [n [Hn Ho]]].
  rewrite Hs, Hn. cbn [send_http_loop]. unfold bind, client_send.
  rewrite Ho. reflexivity.
Qed.

Lemma send_http_raises_on_bad_body_witness :
  send_http (env_reply (HttpResponse 200 None)) "GET" DEVICES_URL world0
  = (Raise ValueError, after_requests 1 "GET" DEVICES_URL world0).
Proof.
  apply (send_http_raises_on_bad_body (env_reply (HttpResponse 200 None))
           "GET" DEVICES_URL world0 0).
  split; [unfold N_RETRY; lia|]. split; [intros j Hj; lia|reflexivity].
Defined.

(** X3: a 401 ends the retries wherever it comes: after [k] retried
    outcomes, [send_http] returns the authentication-failure dict after
    [k + 1] requests. *)
Theorem send_http_stops_at_401 (E : env) (method url : string)
    (w : world) (k : nat) (body : option json) :
  decided_at E w k (HttpResponse 401 body) ->
  send_http E method url w
  = (Ret error_401, after_requests (S k) method url w).
Proof.
  intros [Hk [Hret Ho]]. now apply (send_http_loop_401 E k _ _ _ _ body).
Qed.

Lemma send_http_stops_at_401_witness :
  send_http env_flaky "POST" LOGIN_URL (mkWorld 3 0 0 0 [])
  = (Ret error_401, after_requests 4 "POST" LOGIN_URL (mkWorld 3 0 0 0 [])).
Proof.
  apply (send_http_stops_at_401 env_flaky "POST" LOGIN_URL
           (mkWorld 3 0 0 0 []) 3 None).
  split; [unfold N_RETRY; lia|]. split; [|reflexivity].
  intros j Hj. do 3 (destruct j as [|j]; [reflexivity|]). lia.
Defined.

(** X4: whatever the server does, [send_http] sends at least one and at
    most [N_RETRY] requests, and changes nothing in the world but the
    request count and the log of requests. *)
Theorem send_http_request_bounds (E : env) (method url : string)
    (w w' : world) (r : pyres json) :
  send_http E method url w = (r, w') ->
  exists k, 1 <= k <= N_RETRY /\ w' = after_requests k method url w.
Proof.
  intros H. apply send_http_loop_bound in H.
  destruct H as [k [Hk [Hpos Hw]]]. exists k. split; [|exact Hw].
  unfold N_RETRY in *. lia.
Qed.

Lemma send_http_request_bounds_witness :
  exists k, 1 <= k <= N_RETRY /\
    after_requests 3 "POST" LOGIN_URL world0
    = after_requests k "POST" LOGIN_URL world0.
Proof.
  apply (send_http_request_bounds env_recovers "POST" LOGIN_URL world0
           (after_requests 3 "POST" LOGIN_URL world0)
           (Ret body_login_both_keys)).
  reflexivity.
Defined.

(** * Further properties of login and device enumeration *)

Lemma getitem_path x k v : Py.getitem x k = Ret v <-> path [k] x = Some v.
Proof.
  unfold Py.getitem. simpl. destruct x; try (split; discriminate).
  destruct (Py.lookup k d); split; intros H; inversion H; reflexivity.
Qed.

Lemma path_cons k ks x v :
  path (k :: ks) x = Some v <->
  exists y, Py.getitem x k = Ret y /\ path ks y = Some v.
Proof.
  unfold Py.getitem. simpl. destruct x;
    try (split; [discriminate|intros [y [H _]]; discriminate H]).
  destruct (Py.lookup k d) as [y|].
  - split; [intros H; now exists y|intros [y' [H1 H2]]; now inversion H1].
  - split; [discriminate|intros [y [H _]]; discriminate H].
Qed.

Lemma getitem_contains x k v :
  Py.getitem x k = Ret v -> Py.contains k x = Ret true.
Proof.
  unfold Py.getitem, Py.contains. destruct x; try discriminate.
  now destruct (Py.lookup k d).
Qed.

Section LoginMore.

Variable E : env.

(** What a login that returned true has read and stored. *)
Lemma login_true_inv url a w a' w' :
  login E url (a, w) = (Ret true, (a', w')) ->
  exists resp result auth uid key,
    send_http E "POST" url w = (Ret resp, w') /\
    Py.getitem resp "result" = Ret result /\
    Py.getitem result "_id" = Ret uid /\
    Py.getitem result "auth" = Ret auth /\
    Py.contains "apikey" auth = Ret true /\
    Py.getitem auth "apiKey" = Ret key /\
    a' = set_api_key key (set_user_id uid a).
Proof.
  unfold login, bind, in_world, lift_res, update, ret. simpl.
  destruct (send_http E "POST" url w) as [[resp|e] w1]; simpl;
    [|discriminate].
  destruct (Py.getitem resp "result") as [result|e] eqn:Hr; simpl;
    [|discriminate].
  destruct (Py.contains "_id" result) as [[|]|e]; simpl; try discriminate.
  destruct (Py.getitem result "_id") as [uid|e] eqn:Hu; simpl;
    [|discriminate].
  destruct (Py.getitem result "auth") as [auth|e] eqn:Ha; simpl;
    [|discriminate].
  destruct (Py.contains "apikey" auth) as [[|]|e] eqn:Hc; simpl;
    try discriminate.
  destruct (Py.getitem auth "apiKey") as [key|e] eqn:Hk; simpl;
    [|discriminate].
  intros H; inversion H; subst.
  now exists resp, result, auth, uid, key.
Qed.

End LoginMore.

(** X5: when the response holds [result._id] and holds the key under both
    spellings, [apikey] and [apiKey], in [result.auth], [login] returns
    true having stored [result._id] as [user_id] and the value under
    [apiKey] as [api_key]. *)
Theorem login_stores_credentials (E : env) (url : string) (a : RyobiApi)
    (w w' : world) (resp uid key other : json) :
  send_http E "POST" url w = (Ret resp, w') ->
  path ["result"; "_id"] resp = Some uid ->
  path ["result"; "auth"; "apiKey"] resp = Some key ->
  path ["result"; "auth"; "apikey"] resp = Some other ->
  login E url (a, w)
  = (Ret true, (set_api_key key (set_user_id uid a), w')).
Proof.
  intros Hs Hu Hk Ho.
  apply path_cons in Hu. destruct Hu as [result [Hr Hu]].
  apply getitem_path in Hu.
  apply path_cons in Hk. destruct Hk as [result' [Hr' Hk]].
  rewrite Hr in Hr'. inversion Hr'; subst result'.
  apply path_cons in Hk. destruct Hk as [auth [Ha Hk]].
  apply getitem_path in Hk.
  apply path_cons in Ho. destruct Ho as [result' [Hr'' Ho]].
  rewrite Hr in Hr''. inversion Hr''; subst result'.
  apply path_cons in Ho. destruct Ho as [auth' [Ha' Ho]].
  rewrite Ha in Ha'. inversion Ha'; subst auth'.
  apply getitem_path in Ho. apply getitem_contains in Ho.
  unfold login, bind, in_world, lift_res, update, ret. simpl.
  rewrite Hs. simpl. rewrite Hr. simpl.
  rewrite (getitem_contains _ _ _ Hu). simpl. rewrite Hu. simpl.
  rewrite Ha. simpl. rewrite Ho. simpl. rewrite Hk. reflexivity.
Qed.

Lemma login_stores_credentials_witness :
  login env_recovers LOGIN_URL (RyobiApi_init "user" "secret", world0)
  = (Ret true,
     (set_api_key (JStr "k1")
        (set_user_id (JStr "u1") (RyobiApi_init "user" "secret")),
      after_requests 3 "POST" LOGIN_URL world0)).
Proof.
  apply (login_stores_credentials env_recovers LOGIN_URL
           (RyobiApi_init "user" "secret") world0
           (after_requests 3 "POST" LOGIN_URL world0)
           body_login_both_keys (JStr "u1") (JStr "k1") (JStr "k0"));
    reflexivity.
Defined.

(** X6: [login] returns true only on a response that holds [result._id]
    and, in [result.auth], both [apiKey] and [apikey]; the credentials it
    has stored are then [result._id] and the value under [apiKey]. *)
Theorem login_true_only_with_both_keys (E : env) (url : string)
    (a a' : RyobiApi) (w w' : world) :
  login E url (a, w) = (Ret true, (a', w')) ->
  exists resp uid key,
    send_http E "POST" url w = (Ret resp, w') /\
    path ["result"; "_id"] resp = Some uid /\
    path ["result"; "auth"; "apiKey"] resp = Some key /\
    lacks ["result"; "auth"; "apikey"] resp = false /\
    user_id a' = uid /\ api_key a' = key.
Proof.
  intros H. apply login_true_inv in H.
  destruct H as [resp [result [auth [uid [key
    [Hs [Hr [Hu [Ha [Hc [Hk Ha']]]]]]]]]]].
  exists resp, uid, key. split; [exact Hs|].
  assert (Hauth : path ["result"; "auth"] resp = Some auth).
  { apply path_cons. exists result. split; [exact Hr|].
    now apply getitem_path. }
  split; [|split; [|split; [|split]]].
  - apply path_cons. exists result. split; [exact Hr|].
    now apply getitem_path.
  - apply path_cons. exists result. split; [exact Hr|].
    apply path_cons. exists auth. split; [exact Ha|].
    now apply getitem_path.
  - unfold lacks.
    assert (Hp : exists v, path ["result"; "auth"; "apikey"] resp = Some v).
    { unfold Py.getitem in Hk. destruct auth; try discriminate.
      simpl in Hc. destruct (Py.lookup "apikey" d) as [v|] eqn:Hl;
        [|discriminate].
      exists v. apply path_cons. exists result. split; [exact Hr|].
      apply path_cons. exists (JObj d). split; [exact Ha|].
      simpl. now rewrite Hl. }
    destruct Hp as [v Hv]. now rewrite Hv.
  - now subst a'.
  - now subst a'.
Qed.

Lemma login_true_only_with_both_keys_witness :
  exists resp uid key,
    send_http env_recovers "POST" LOGIN_URL world0
    = (Ret resp, after_requests 3 "POST" LOGIN_URL world0) /\
    path ["result"; "_id"] resp = Some uid /\
    path ["result"; "auth"; "apiKey"] resp = Some key /\
    lacks ["result"; "auth"; "apikey"] resp = false /\
    user_id (mkApi "user" "secret" (JStr "k1") (JStr "u1") []) = uid /\
    api_key (mkApi "user" "secret" (JStr "k1") (JStr "u1") []) = key.
Proof.
  apply (login_true_only_with_both_keys env_recovers LOGIN_URL
           (RyobiApi_init "user" "secret")).
  reflexivity.
Defined.

(** X7: however [login] ends, it leaves [username], [password] and the
    device list as they were, and it writes [api_key] only when it
    returns true. *)
Theorem login_frame (E : env) (url : string) (a a' : RyobiApi)
    (w w' : world) (r : pyres bool) :
  login E url (a, w) = (r, (a', w')) ->
  username a' = username a /\ password a' = password a /\
  devices a' = devices a /\
  (r <> Ret true -> api_key a' = api_key a).
Proof.
  unfold login, bind, in_world, lift_res, update, ret. simpl.
  destruct (send_http E "POST" url w) as [[resp|e] w1]; simpl;
    [|intros H; inversion H; now repeat split].
  destruct (Py.getitem resp "result") as [result|e]; simpl;
    [|intros H; inversion H; now repeat split].
  destruct (Py.contains "_id" result) as [[|]|e]; simpl;
    try (intros H; inversion H; now repeat split).
  destruct (Py.getitem result "_id") as [uid|e]; simpl;
    [|intros H; inversion H; now repeat split].
  destruct (Py.getitem result "auth") as [auth|e]; simpl;
    [|intros H; inversion H; now repeat split].
  destruct (Py.contains "apikey" auth) as [[|]|e]; simpl;
    try (intros H; inversion H; now repeat split).
  destruct (Py.getitem auth "apiKey") as [key|e]; simpl;
    intros H; inversion H; repeat split; congruence.
Qed.

Lemma login_frame_witness :
  username (mkApi "user" "secret" JNull (JStr "u1") []) = "user" /\
  password (mkApi "user" "secret" JNull (JStr "u1") []) = "secret" /\
  devices (mkApi "user" "secret" JNull (JStr "u1") []) = [] /\
  (@Ret bool false <> Ret true ->
   api_key (mkApi "user" "secret" JNull (JStr "u1") []) = JNull).
Proof.
  apply (login_frame (env_reply (HttpResponse 200 (Some body_login_ok)))
           LOGIN_URL (RyobiApi_init "user" "secret")
           (mkApi "user" "secret" JNull (JStr "u1") [])
           world0 (after_requests 1 "POST" LOGIN_URL world0) (Ret false)).
  reflexivity.
Defined.

(** X8: when [send_http] comes back with one of its failure dicts, after a
    401 or after [N_RETRY] retried outcomes, [login] raises
    [KeyError('result')] and leaves the client as it was. *)
Theorem login_raises_on_http_failure (E : env) (url : string)
    (a : RyobiApi) (w : world) :
  receives_401 E w \/ exhausts_retries E w ->
  exists k,
    1 <= k <= N_RETRY /\
    login E url (a, w)
    = (Raise (KeyError "result"), (a, after_requests k "POST" url w)).
Proof.
  intros [[k [body [Hk [Hret H401]]]]|Hex].
  - exists (S k). split; [lia|].
    apply (login_after_send E url a w error_401); [|reflexivity].
    now apply (send_http_loop_401 E k "POST" url N_RETRY w body).
  - exists N_RETRY. split; [unfold N_RETRY; lia|].
    apply (login_after_send E url a w error_retries); [|reflexivity].
    now apply send_http_loop_exhausted.
Qed.

Lemma login_raises_on_http_failure_witness :
  exists k,
    1 <= k <= N_RETRY /\
    login env_flaky LOGIN_URL (RyobiApi_init "user" "secret", world0)
    = (Raise (KeyError "result"),
       (RyobiApi_init "user" "secret",
        after_requests k "POST" LOGIN_URL world0)).
Proof.
  apply (login_raises_on_http_failure env_flaky LOGIN_URL
           (RyobiApi_init "user" "secret") world0).
  right. intros k Hk. unfold N_RETRY in Hk.
  do 6 (destruct k as [|k]; [reflexivity|]). lia.
Defined.

Section DevicesMore.

Variable E : env.

(** A descriptor that [make_device] returns has the ten keys of the
    source, bound to the client's credentials and the item's metadata. *)
Lemma make_device_describes a result d :
  make_device a result = Ret d -> describes a result d.
Proof.
  unfold make_device.
  destruct (Py.getitem result "deviceTypeIds") as [type_ids|e] eqn:H1;
    [|discriminate].
  destruct (Py.getitem result "varName") as [d_id|e] eqn:H2;
    [|discriminate].
  destruct (Py.getitem result "metaData") as [meta|e] eqn:H3;
    [|discriminate].
  destruct (Py.getitem meta "name") as [name|e] eqn:H4; [|discriminate].
  destruct (Py.getitem meta "version") as [version|e] eqn:H5;
    [|discriminate].
  destruct (Py.getitem meta "description") as [description|e] eqn:H6;
    [|discriminate].
  destruct (Py.getitem meta "sys") as [sys|e] eqn:H7; [|discriminate].
  destruct (Py.getitem sys "lastSeen") as [last_seen|e] eqn:H8;
    [|discriminate].
  intros H; inversion H; subst; clear H.
  assert (P1 : path ["deviceTypeIds"] result = Some type_ids)
    by now apply getitem_path.
  assert (P2 : path ["varName"] result = Some d_id)
    by now apply getitem_path.
  assert (P4 : path ["metaData"; "name"] result = Some name)
    by (apply path_cons; exists meta; split; [|apply getitem_path]; easy).
  assert (P5 : path ["metaData"; "version"] result = Some version)
    by (apply path_cons; exists meta; split; [|apply getitem_path]; easy).
  assert (P6 : path ["metaData"; "description"] result = Some description)
    by (apply path_cons; exists meta; split; [|apply getitem_path]; easy).
  assert (P8 : path ["metaData"; "sys"; "lastSeen"] result = Some last_seen).
  { apply path_cons. exists meta. split; [easy|].
    apply path_cons. exists sys. split; [easy|]. now apply getitem_path. }
  unfold describes. rewrite P1, P2, P4, P5, P6, P8.
  repeat split; reflexivity.
Qed.

(** The loop stops at the first item that cannot be described; the
    descriptors of the items before it stay appended. *)
Lemma get_devices_loop_stops good : forall ds bad rest e a w,
  Forall2 (fun r d => make_device a r = Ret d) good ds ->
  make_device a bad = Raise e ->
  get_devices_loop (good ++ bad :: rest) (a, w)
  = (Raise e, (with_devices ds a, w)).
Proof.
  induction good as [|r good IH]; intros ds bad rest e a w Hg Hb;
    inversion Hg; subst.
  - simpl. unfold bind, self, lift_res. simpl. rewrite Hb.
    unfold with_devices. rewrite app_nil_r. now destruct a.
  - simpl. unfold bind, self, lift_res, update. simpl.
    match goal with Hd : make_device a r = Ret ?y |- _ =>
      rewrite Hd; simpl; rewrite (IH l' bad rest e (append_device y a) w)
    end.
    + unfold with_devices, append_device. simpl. now rewrite <- app_assoc.
    + eapply Forall2_impl; [|eassumption].
      intros x z Hx. rewrite <- Hx. now apply make_device_same_credentials.
    + rewrite <- Hb. now apply make_device_same_credentials.
Qed.

(** Whatever the outcome of the loop, the client only gains
    descriptors. *)
Lemma get_devices_loop_extends items : forall a w r a' w',
  get_devices_loop items (a, w) = (r, (a', w')) ->
  exists ds, a' = with_devices ds a.
Proof.
  induction items as [|result rest IH]; intros a w r a' w' H.
  - inversion H; subst. exists []. unfold with_devices.
    rewrite app_nil_r. now destruct a'.
  - simpl in H. unfold bind, self, lift_res, update in H. simpl in H.
    destruct (make_device a result) as [d|e].
    + apply IH in H. destruct H as [ds Hds]. exists (d :: ds).
      rewrite Hds. unfold with_devices, append_device. simpl.
      now rewrite <- app_assoc.
    + inversion H; subst. exists []. unfold with_devices.
      rewrite app_nil_r. now destruct a'.
Qed.

End DevicesMore.

(** X9: on a 200 whose body is falsy (an empty object or list, [null],
    0, the empty string or [false]), [get_devices] takes its error branch:
    it returns a new empty list, not the accumulated one, and leaves the
    client as it was. *)
Theorem get_devices_falsy_response (E : env) (url : string) (a : RyobiApi)
    (w : world) (k : nat) (resp : json) :
  decided_at E w k (HttpResponse 200 (Some resp)) ->
  Py.truthy resp = false ->
  get_devices E url (a, w)
  = (Ret (NewList []), (a, after_requests (S k) "GET" url w)).
Proof.
  intros Hd Hf.
  assert (Hs : send_http E "GET" url w
               = (Ret resp, after_requests (S k) "GET" url w)).
  { destruct (send_http_decided E k _ "GET" url w Hd) as [Hs [n [Hn Ho]]].
    rewrite Hs, Hn. cbn [send_http_loop]. unfold bind, client_send.
    rewrite Ho. reflexivity. }
  unfold get_devices, bind, in_world. simpl. rewrite Hs. simpl.
  now rewrite Hf.
Qed.

Lemma get_devices_falsy_response_witness :
  get_devices (env_reply (HttpResponse 200 (Some (JObj []))))
    DEVICES_URL
    (mkApi "user" "secret" JNull JNull [device_garage], world0)
  = (Ret (NewList []),
     (mkApi "user" "secret" JNull JNull [device_garage],
      after_requests 1 "GET" DEVICES_URL world0)).
Proof.
  apply (get_devices_falsy_response
           (env_reply (HttpResponse 200 (Some (JObj [])))) DEVICES_URL
           (mkApi "user" "secret" JNull JNull [device_garage]) world0 0
           (JObj [])); [|reflexivity].
  split; [unfold N_RETRY; lia|]. split; [intros j Hj; lia|reflexivity].
Defined.

(** X10: a call of [get_devices] that returns the list has appended one
    descriptor per item of the response, in order; each has exactly the
    ten keys of the source, holding the client's username, password,
    [api_key] and [user_id] and the item's [deviceTypeIds], [varName] and
    [metaData] entries. *)
Theorem get_devices_descriptors (E : env) (url : string)
    (a a' : RyobiApi) (w w' : world) :
  get_devices E url (a, w) = (Ret SelfDevices, (a', w')) ->
  exists resp result items ds,
    send_http E "GET" url w = (Ret resp, w') /\
    Py.getitem resp "result" = Ret result /\
    Py.iter result = Ret items /\
    a' = with_devices ds a /\
    Forall2 (describes a) items ds.
Proof.
  intros H. apply get_devices_returns_self in H.
  destruct H as [resp [result [items [ds [Hs [_ [Hr [Hi [Hf Ha]]]]]]]]].
  exists resp, result, items, ds. repeat split; try assumption.
  eapply Forall2_impl; [|exact Hf].
  intros r d Hd. now apply make_device_describes.
Qed.

Lemma get_devices_descriptors_witness :
  exists resp result items ds,
    send_http (env_reply (HttpResponse 200 (Some body_devices))) "GET"
      DEVICES_URL world0
    = (Ret resp, after_requests 1 "GET" DEVICES_URL world0) /\
    Py.getitem resp "result" = Ret result /\
    Py.iter result = Ret items /\
    mkApi "user" "secret" JNull JNull [device_garage]
    = with_devices ds (RyobiApi_init "user" "secret") /\
    Forall2 (describes (RyobiApi_init "user" "secret")) items ds.
Proof.
  apply (get_devices_descriptors
           (env_reply (HttpResponse 200 (Some body_devices))) DEVICES_URL).
  reflexivity.
Defined.

(** X11: when an item of the device list lacks one of the keys read, the
    call raises at that item, and the descriptors of the items before it
    have already been appended to [self.devices] and stay there. *)
Theorem get_devices_partial_failure (E : env) (url : string)
    (a : RyobiApi) (w w' : world) (resp result bad : json)
    (good rest : list json) (ds : list pydict) (e : exn) :
  send_http E "GET" url w = (Ret resp, w') ->
  Py.truthy resp = true ->
  Py.getitem resp "result" = Ret result ->
  Py.iter result = Ret (good ++ bad :: rest)%list ->
  Forall2 (fun r d => make_device a r = Ret d) good ds ->
  make_device a bad = Raise e ->
  get_devices E url (a, w) = (Raise e, (with_devices ds a, w')).
Proof.
  intros Hs Ht Hr Hi Hg Hb.
  unfold get_devices, bind, in_world, lift_res. simpl.
  rewrite Hs. simpl. rewrite Ht, Hr. simpl. rewrite Hi.
  now rewrite (get_devices_loop_stops good ds bad rest e).
Qed.

Lemma get_devices_partial_failure_witness :
  get_devices (env_reply (HttpResponse 200 (Some body_devices_broken)))
    DEVICES_URL (RyobiApi_init "user" "secret", world0)
  = (Raise (KeyError "metaData"),
     (with_devices [device_garage] (RyobiApi_init "user" "secret"),
      after_requests 1 "GET" DEVICES_URL world0)).
Proof.
  apply (get_devices_partial_failure
           (env_reply (HttpResponse 200 (Some body_devices_broken)))
           DEVICES_URL (RyobiApi_init "user" "secret") world0
           (after_requests 1 "GET" DEVICES_URL world0)
           body_devices_broken
           (JArr [JObj [("deviceTypeIds", JArr [JStr "gdo"]);
                        ("varName", JStr "d1");
                        ("metaData",
                         JObj [("name", JStr "Garage");
                               ("version", JStr "1.0");
                               ("description", JStr "GDO");
                               ("sys", JObj [("lastSeen", JNum 100)])])];
                  JObj [("deviceTypeIds", JArr [JStr "gdo"]);
                        ("varName", JStr "d2")]])
           (JObj [("deviceTypeIds", JArr [JStr "gdo"]);
                  ("varName", JStr "d2")])
           [JObj [("deviceTypeIds", JArr [JStr "gdo"]);
                  ("varName", JStr "d1");
                  ("metaData",
                   JObj [("name", JStr "Garage");
                         ("version", JStr "1.0");
                         ("description", JStr "GDO");
                         ("sys", JObj [("lastSeen", JNum 100)])])]]
           [] [device_garage] (KeyError "metaData"));
    try reflexivity.
  constructor; [reflexivity|constructor].
Defined.

(** X12: however [get_devices] ends, it leaves the client's username,
    password, [api_key] and [user_id] as they were, and its device list is
    the former one with descriptors added at the end: nothing is removed
    or replaced. *)
Theorem get_devices_frame (E : env) (url : string) (a a' : RyobiApi)
    (w w' : world) (r : pyres list_ref) :
  get_devices E url (a, w) = (r, (a', w')) ->
  exists ds, a' = with_devices ds a.
Proof.
  unfold get_devices, bind, in_world, lift_res, ret. simpl.
  assert (Hnil : exists ds, a = with_devices ds a).
  { exists []. unfold with_devices. rewrite app_nil_r. now destruct a. }
  destruct (send_http E "GET" url w) as [[resp|e] w1]; simpl;
    [|intros H; inversion H; subst; exact Hnil].
  destruct (Py.truthy resp);
    [|intros H; inversion H; subst; exact Hnil].
  destruct (Py.getitem resp "result") as [result|e]; simpl;
    [|intros H; inversion H; subst; exact Hnil].
  destruct (Py.iter result) as [items|e]; simpl;
    [|intros H; inversion H; subst; exact Hnil].
  destruct (get_devices_loop items (a, w1)) as [[[]|e] [a1 w2]] eqn:Hl;
    intros H; inversion H; subst;
    now apply get_devices_loop_extends in Hl.
Qed.

Lemma get_devices_frame_witness :
  exists ds,
    with_devices [device_garage] (RyobiApi_init "user" "secret")
    = with_devices ds (RyobiApi_init "user" "secret").
Proof.
  apply (get_devices_frame
           (env_reply (HttpResponse 200 (Some body_devices_broken)))
           DEVICES_URL (RyobiApi_init "user" "secret")
           (with_devices [device_garage] (RyobiApi_init "user" "secret"))
           world0 (after_requests 1 "GET" DEVICES_URL world0)
           (Raise (KeyError "metaData"))).
  reflexivity.
Defined.

(** X13: after a [login] that returned true, every descriptor that a
    following [get_devices] adds carries the [api_key] and [user_id] that
    this login read from its response, whatever happened on the network
    in between. *)
Theorem login_then_get_devices (E : env) (url1 url2 : string)
    (a a1 a2 : RyobiApi) (w w1 w1' w2 : world) :
  login E url1 (a, w) = (Ret true, (a1, w1)) ->
  get_devices E url2 (a1, w1') = (Ret SelfDevices, (a2, w2)) ->
  exists resp uid key ds,
    send_http E "POST" url1 w = (Ret resp, w1) /\
    path ["result"; "_id"] resp = Some uid /\
    path ["result"; "auth"; "apiKey"] resp = Some key /\
    devices a2 = (devices a ++ ds)%list /\
    Forall (fun d => Py.lookup "api_key" d = Some key /\
                     Py.lookup "u_id" d = Some uid) ds.
Proof.
  intros Hl Hg. apply login_true_inv in Hl.
  destruct Hl as [resp [result [auth [uid [key
    [Hs [Hr [Hu [Ha [_ [Hk Ha1]]]]]]]]]]].
  apply get_devices_returns_self in Hg.
  destruct Hg as [resp2 [res2 [items [ds [_ [_ [_ [_ [Hf Ha2]]]]]]]]].
  exists resp, uid, key, ds. split; [exact Hs|]. split; [|split; [|split]].
  - apply path_cons. exists result. split; [exact Hr|].
    now apply getitem_path.
  - apply path_cons. exists result. split; [exact Hr|].
    apply path_cons. exists auth. split; [exact Ha|].
    now apply getitem_path.
  - subst a2 a1. reflexivity.
  - clear Ha2. induction Hf as [|r d items ds Hd Hf IH]; constructor.
    + apply make_device_describes in Hd. subst a1.
      destruct Hd as [_ [_ [_ [H3 [H4 _]]]]]. now split.
    + exact IH.
Qed.

Lemma login_then_get_devices_witness :
  exists resp uid key ds,
    send_http env_session "POST" LOGIN_URL world0
    = (Ret resp, after_requests 3 "POST" LOGIN_URL world0) /\
    path ["result"; "_id"] resp = Some uid /\
    path ["result"; "auth"; "apiKey"] resp = Some key /\
    devices (mkApi "user" "secret" (JStr "k1") (JStr "u1")
               [device_garage_keyed])
    = (devices (RyobiApi_init "user" "secret") ++ ds)%list /\
    Forall (fun d => Py.lookup "api_key" d = Some key /\
                     Py.lookup "u_id" d = Some uid) ds.
Proof.
  apply (login_then_get_devices env_session LOGIN_URL DEVICES_URL
           (RyobiApi_init "user" "secret")
           (mkApi "user" "secret" (JStr "k1") (JStr "u1") [])
           (mkApi "user" "secret" (JStr "k1") (JStr "u1")
              [device_garage_keyed])
           world0 (after_requests 3 "POST" LOGIN_URL world0)
           (after_requests 3 "POST" LOGIN_URL world0)
           (after_requests 1 "GET" DEVICES_URL
              (after_requests 3 "POST" LOGIN_URL world0)));
    reflexivity.
Defined.

(** * What the session methods leave alone *)

#[local] Instance session_frame_preorder : PreOrder session_frame.
Proof.
  split.
  - intros s. unfold session_frame.
    split; [auto|]. split; [auto|]. do 6 (split; [reflexivity|]). auto.
  - intros a b c Hab Hbc. unfold session_frame in *.
    destruct Hab as [A1 [A2 [A3 [A4 [A5 [A6 [A7 [A8 A9]]]]]]]].
    destruct Hbc as [B1 [B2 [B3 [B4 [B5 [B6 [B7 [B8 B9]]]]]]]].
    split; [auto|]. split.
    { intros H. destruct (B2 H) as [Hb|Hb]; [|now right].
      destruct (A2 Hb) as [Ha|Ha]; [now left|right; auto]. }
    do 6 (split; [congruence|]).
    intros H. destruct (A9 H) as [Hb Hh].
    assert (Hk : Py.truthy (api_key (base (fst b))) = true)
      by now rewrite Hb.
    destruct (B9 Hk) as [Hc Hh']. split; congruence.
Qed.

#[local] Instance quiet_step_preorder : PreOrder quiet_step.
Proof.
  split.
  - intros s. split; auto.
  - intros a b c [A1 A2] [B1 B2]. split; [congruence|].
    destruct B2 as [B2|B2]; [|now right].
    destruct A2 as [A2|A2]; [left|right]; congruence.
Qed.

Lemma sends_cons e l :
  sends (e :: l) = (if is_send e then S (sends l) else sends l).
Proof. unfold sends. simpl. now destruct (is_send e). Qed.

Lemma sends_requests k method url l :
  sends (repeat (EvHttp method url) k ++ l) = sends l.
Proof. induction k; simpl; auto. Qed.

(** A step that changes fields of the controller other than the socket
    handle and the inherited ones, and logs events other than thread
    starts. *)
Lemma frame_local c c' w w' :
  ws c' = ws c -> device_status c' = device_status c ->
  subscriber c' = subscriber c -> _refresh_time c' = _refresh_time c ->
  base c' = base c -> http_sent w' = http_sent w ->
  started (log w') = started (log w) ->
  session_frame (c, w) (c', w').
Proof.
  intros H1 H2 H3 H4 H5 H6 H7. unfold session_frame. simpl.
  rewrite H1, H5, H7. repeat split; auto.
Qed.

Lemma login_keeps_identity E url a w r a' w' :
  login E url (a, w) = (r, (a', w')) ->
  username a' = username a /\ password a' = password a /\
  devices a' = devices a.
Proof.
  unfold login, bind, in_world, lift_res, update, ret. simpl.
  destruct (send_http E "POST" url w) as [[resp|e] w1]; simpl;
    [|intros H; inversion H; now repeat split].
  destruct (Py.getitem resp "result") as [result|e]; simpl;
    [|intros H; inversion H; now repeat split].
  destruct (Py.contains "_id" result) as [[|]|e]; simpl;
    try (intros H; inversion H; now repeat split).
  destruct (Py.getitem result "_id") as [uid|e]; simpl;
    [|intros H; inversion H; now repeat split].
  destruct (Py.getitem result "auth") as [auth|e]; simpl;
    [|intros H; inversion H; now repeat split].
  destruct (Py.contains "apikey" auth) as [[|]|e]; simpl;
    try (intros H; inversion H; now repeat split).
  destruct (Py.getitem auth "apiKey") as [key|e]; simpl;
    intros H; inversion H; now repeat split.
Qed.

Section Frame.

Variable E : env.

Lemma stable_frame_update f :
  (forall c, ws (f c) = ws c /\ device_status (f c) = device_status c /\
             subscriber (f c) = subscriber c /\
             _refresh_time (f c) = _refresh_time c /\
             base (f c) = base c) ->
  stable session_frame (update f).
Proof.
  intros Hf. apply stable_update. intros c w.
  destruct (Hf c) as [H1 [H2 [H3 [H4 H5]]]]. now apply frame_local.
Qed.

Lemma stable_frame_lib_call e :
  is_thread_start e = false ->
  stable session_frame (in_world (lib_call E e)).
Proof.
  intros He. apply stable_in_world. intros c w r w'. unfold lib_call, emit.
  destruct (lib_raises E (lib_calls w)); intros H; inversion H; subst;
    apply frame_local; auto.
  simpl. now rewrite He.
Qed.

Lemma stable_frame_close h :
  stable session_frame
    (in_world (fun w : world => (Ret tt, emit (EvClose h) w))).
Proof.
  apply stable_in_world. intros c w r w' H; inversion H; subst.
  now apply frame_local.
Qed.

Lemma stable_frame_check_credentials :
  stable session_frame (check_credentials E).
Proof.
  intros [c w] r [c' w']. unfold check_credentials, bind, self, ret. simpl.
  destruct (Py.truthy (api_key (base c))) eqn:Hk; simpl.
  - intros H; inversion H; subst. reflexivity.
  - destruct (as_api (login E LOGIN_URL) (c, w)) as [r1 [c1 w1]] eqn:Hl.
    intros H.
    assert (Hend : c' = c1 /\ w' = w1)
      by (destruct r1 as [[|]|e]; now inversion H).
    destruct Hend; subst. clear H.
    apply as_api_effect in Hl. destruct Hl as [a' [Hl Hc]]. subst c1.
    pose proof (login_keeps_identity _ _ _ _ _ _ _ Hl) as [Hu [Hp Hd]].
    apply login_world in Hl. destruct Hl as [k Hw]. subst w1.
    unfold session_frame. simpl. rewrite started_requests, Hk.
    repeat split; auto; discriminate.
Qed.

Lemma stable_frame_wss_setup : stable session_frame (wss_setup E).
Proof.
  intros [c w] r [c' w']. rewrite wss_setup_run. cbv zeta.
  destruct (lib_raises E (lib_calls w));
    [|destruct (lib_raises E (S (lib_calls w)));
      [|destruct (lib_raises E (S (S (lib_calls w))));
        [|destruct (lib_raises E (S (S (S (lib_calls w)))))]]];
    intros H; inversion H; subst; clear H;
    unfold session_frame; simpl;
    repeat split; auto; try discriminate;
    intros _; right; discriminate.
Qed.

Lemma stable_frame_open_wss_thread :
  stable session_frame (open_wss_thread E).
Proof.
  unfold open_wss_thread.
  repeat stable_step;
    auto using stable_frame_check_credentials, stable_frame_wss_setup.
  apply stable_frame_update. intros c. now repeat split.
Qed.

Lemma stable_frame_fire cb : stable session_frame (fire cb).
Proof.
  intros [c w] r [c' w'] H. unfold fire in H.
  destruct (run_callback cb (c, w)) as [r1 [c1 w1]] eqn:Hcb.
  inversion H; subst; clear H.
  destruct cb as [| | | |[m|]];
    cbv [run_callback on_open on_close on_error on_pong on_message
         update bind ret raise] in Hcb; simpl in Hcb;
    inversion Hcb; subst; clear Hcb; now apply frame_local.
Qed.

Lemma stable_frame_fire_all cbs : stable session_frame (fire_all cbs).
Proof.
  induction cbs as [|cb rest IH]; simpl.
  - apply stable_ret; typeclasses eauto.
  - repeat stable_step; auto using stable_frame_fire.
Qed.

Lemma stable_frame_sleep : stable session_frame (sleep E).
Proof.
  intros [c w] r [c' w'] H. unfold sleep in H. simpl in H.
  assert (H0 : session_frame (c, w)
                 (c, mkWorld (http_sent w) (lib_calls w) (ws_made w)
                       (S (sleeps w)) (EvSleep :: log w)))
    by now apply frame_local.
  destruct (started (log w)).
  - apply stable_frame_fire_all in H.
    now transitivity
      (c, mkWorld (http_sent w) (lib_calls w) (ws_made w)
            (S (sleeps w)) (EvSleep :: log w)).
  - now inversion H; subst.
Qed.

Lemma stable_frame_connect_poll n : stable session_frame (connect_poll E n).
Proof.
  induction n as [|n IH]; simpl.
  - apply stable_ret; typeclasses eauto.
  - repeat stable_step; auto using stable_frame_sleep.
Qed.

Lemma stable_frame_connect_wss : stable session_frame (connect_wss E).
Proof.
  unfold connect_wss.
  repeat stable_step;
    auto using stable_frame_open_wss_thread, stable_frame_connect_poll.
Qed.

Lemma stable_frame_dead_link_check : stable session_frame dead_link_check.
Proof.
  unfold dead_link_check, ws_close, on_ws.
  repeat stable_step;
    try (apply stable_frame_update; intros c0; now repeat split).
  apply stable_frame_close.
Qed.

Lemma stable_frame_publish_loop n msg :
  stable session_frame (publish_loop E n msg).
Proof.
  induction n as [|n IH]; simpl.
  - apply stable_ret; typeclasses eauto.
  - unfold ws_send, on_ws.
    repeat stable_step;
      auto using stable_frame_connect_wss;
      try (apply stable_frame_update; intros c0; now repeat split).
    now apply stable_frame_lib_call.
Qed.

Lemma stable_frame_publish_wss msg :
  stable session_frame (publish_wss E msg).
Proof.
  unfold publish_wss.
  repeat stable_step;
    auto using stable_frame_dead_link_check, stable_frame_publish_loop.
Qed.

(** ** Steps that send nothing *)

Lemma quiet_local c c' w w' :
  sent_counter c' = sent_counter c \/ sent_counter c' = 0%Z ->
  sends (log w') = sends (log w) ->
  quiet_step (c, w) (c', w').
Proof. intros H1 H2. now split. Qed.

Lemma stable_quiet_update f :
  (forall c, sent_counter (f c) = sent_counter c \/
             sent_counter (f c) = 0%Z) ->
  stable quiet_step (update f).
Proof.
  intros Hf. apply stable_update. intros c w. now apply quiet_local.
Qed.

Lemma stable_quiet_lib_call e :
  is_send e = false -> stable quiet_step (in_world (lib_call E e)).
Proof.
  intros He. apply stable_in_world. intros c w r w'. unfold lib_call, emit.
  destruct (lib_raises E (lib_calls w)); intros H; inversion H; subst;
    apply quiet_local; auto.
  simpl. now rewrite sends_cons, He.
Qed.

Lemma stable_quiet_new_websocket_app :
  stable quiet_step (new_websocket_app E).
Proof.
  intros [c w] r [c' w']. unfold new_websocket_app, lib_call, emit. simpl.
  destruct (lib_raises E (lib_calls w)); intros H; inversion H; subst;
    (apply quiet_local; [now left|]); cbn [snd log];
    rewrite ?sends_cons; reflexivity.
Qed.

Lemma stable_quiet_check_credentials :
  stable quiet_step (check_credentials E).
Proof.
  intros [c w] r [c' w'] H. apply check_credentials_effect in H.
  destruct H as [a' [k [Hc Hw]]]. subst. apply quiet_local; [now left|].
  simpl. apply sends_requests.
Qed.

Lemma stable_quiet_open_wss_thread : stable quiet_step (open_wss_thread E).
Proof.
  unfold open_wss_thread, wss_setup, authenticate, subscribe, new_thread,
    thread_start, thread_is_alive, on_ws.
  repeat stable_step;
    auto using stable_quiet_check_credentials,
               stable_quiet_new_websocket_app, stable_quiet_lib_call;
    apply stable_quiet_update; intros c0; now left.
Qed.

Lemma stable_quiet_fire cb : stable quiet_step (fire cb).
Proof.
  intros [c w] r [c' w'] H. unfold fire in H.
  destruct (run_callback cb (c, w)) as [r1 [c1 w1]] eqn:Hcb.
  inversion H; subst; clear H.
  destruct cb as [| | | |[m|]];
    cbv [run_callback on_open on_close on_error on_pong on_message
         update bind ret raise] in Hcb; simpl in Hcb;
    inversion Hcb; subst; clear Hcb; apply quiet_local; simpl; auto.
Qed.

Lemma stable_quiet_fire_all cbs : stable quiet_step (fire_all cbs).
Proof.
  induction cbs as [|cb rest IH]; simpl.
  - apply stable_ret; typeclasses eauto.
  - repeat stable_step; auto using stable_quiet_fire.
Qed.

Lemma stable_quiet_sleep : stable quiet_step (sleep E).
Proof.
  intros [c w] r [c' w'] H. unfold sleep in H. simpl in H.
  assert (H0 : quiet_step (c, w)
                 (c, mkWorld (http_sent w) (lib_calls w) (ws_made w)
                       (S (sleeps w)) (EvSleep :: log w)))
    by (apply quiet_local; auto).
  destruct (started (log w)).
  - apply stable_quiet_fire_all in H.
    now transitivity
      (c, mkWorld (http_sent w) (lib_calls w) (ws_made w)
            (S (sleeps w)) (EvSleep :: log w)).
  - now inversion H; subst.
Qed.

Lemma stable_quiet_connect_poll n : stable quiet_step (connect_poll E n).
Proof.
  induction n as [|n IH]; simpl.
  - apply stable_ret; typeclasses eauto.
  - repeat stable_step; auto using stable_quiet_sleep.
Qed.

Lemma stable_quiet_connect_wss : stable quiet_step (connect_wss E).
Proof.
  unfold connect_wss.
  repeat stable_step;
    auto using stable_quiet_open_wss_thread, stable_quiet_connect_poll.
Qed.

End Frame.

(** * Further properties of the session controller *)

Section SessionMore.

Variable E : env.

(** The publish loop sends at most once, and only as its last act. *)
Lemma publish_loop_sends n msg : forall c w r c' w',
  publish_loop E n msg (c, w) = (r, (c', w')) ->
  (r = Ret true ->
   sends (log w') = S (sends (log w)) /\
   exists h older, ws c' = Some h /\ log w' = EvSend h msg :: older) /\
  (r <> Ret true -> sends (log w') = sends (log w)).
Proof.
  induction n as [|n IH]; intros c w r c' w' H.
  - inversion H; subst. split; [discriminate|reflexivity].
  - rewrite publish_loop_run in H.
    destruct (sock_state_eqb (socket_state c) SOCK_CONNECTED).
    + destruct (ws c) as [h|] eqn:Hws.
      * cbv zeta in H. destruct (lib_raises E (lib_calls w)) as [e|].
        -- destruct (is_WebSocketConnectionClosedException e).
           ++ now apply IH in H.
           ++ inversion H; subst. split; [discriminate|reflexivity].
        -- inversion H; subst. split; [|congruence]. intros _.
           split; [reflexivity|]. now exists h, (log w).
      * inversion H; subst. split; [discriminate|reflexivity].
    + destruct (connect_wss E (c, w)) as [[b|e] [c1 w1]] eqn:Hc;
        apply stable_quiet_connect_wss in Hc; destruct Hc as [Hc _];
        simpl in Hc.
      * apply IH in H. rewrite <- Hc. exact H.
      * inversion H; subst. split; [discriminate|intros _; exact Hc].
Qed.

(** Where the loop leaves the counter: where it was, at 0, or one above
    either after a send on an existing socket. *)
Lemma publish_loop_counter n msg : forall c w r c' w',
  publish_loop E n msg (c, w) = (r, (c', w')) ->
  sent_counter c' = sent_counter c \/ sent_counter c' = 0%Z \/
  ((sent_counter c' = (sent_counter c + 1)%Z \/ sent_counter c' = 1%Z) /\
   ws c' <> None).
Proof.
  induction n as [|n IH]; intros c w r c' w' H.
  - inversion H; subst. now left.
  - rewrite publish_loop_run in H.
    destruct (sock_state_eqb (socket_state c) SOCK_CONNECTED).
    + destruct (ws c) as [h|] eqn:Hws.
      * cbv zeta in H. destruct (lib_raises E (lib_calls w)) as [e|].
        -- destruct (is_WebSocketConnectionClosedException e).
           ++ now apply IH in H.
           ++ inversion H; subst. now left.
        -- inversion H; subst. right; right. simpl.
           split; [now left|congruence].
      * inversion H; subst. now left.
    + destruct (connect_wss E (c, w)) as [[b|e] [c1 w1]] eqn:Hc;
        apply stable_quiet_connect_wss in Hc; destruct Hc as [_ Hc];
        simpl in Hc.
      * apply IH in H.
        destruct Hc as [Hc|Hc]; rewrite Hc in H; [exact H|].
        destruct H as [H|[H|[[H|H] Hw]]]; auto.
      * inversion H; subst. destruct Hc; auto.
Qed.

Lemma dead_link_check_counter c w r c' w' :
  dead_link_check (c, w) = (r, (c', w')) ->
  (0 <= sent_counter c)%Z ->
  (0 <= sent_counter c' <= 4)%Z /\
  (sent_counter c' = sent_counter c \/ sent_counter c' = 0%Z) /\
  ws c' = ws c /\ log w' = log w \/
  (0 <= sent_counter c' <= 4)%Z /\
  (sent_counter c' = sent_counter c \/ sent_counter c' = 0%Z) /\
  ws c' = ws c /\ exists h, log w' = EvClose h :: log w.
Proof.
  unfold dead_link_check, ws_close, on_ws, bind, self, update, in_world,
    ret, raise.
  simpl. destruct (Z.leb 5 (sent_counter c)) eqn:H5; simpl.
  - destruct (ws c) as [h|] eqn:Hws; simpl; intros H; inversion H; subst;
      intros Hge; simpl.
    + right. repeat split; auto; try lia. now exists h.
    + left. repeat split; auto; lia.
  - intros H; inversion H; subst. intros Hge. apply Z.leb_gt in H5.
    left. repeat split; auto; lia.
Qed.

Lemma publish_wss_counter_ok msg s r s' :
  publish_wss E msg s = (r, s') -> counter_ok s -> counter_ok s'.
Proof.
  intros H [Hb [Hpos Hst]].
  pose proof (stable_frame_publish_wss E msg _ _ _ H) as [F1 [F2 _]].
  destruct s as [c w], s' as [c' w']. simpl in *.
  unfold publish_wss in H. unfold bind at 1 in H.
  destruct (dead_link_check (c, w)) as [r1 [c1 w1]] eqn:Hd.
  assert (Hd' : (0 <= sent_counter c1 <= 4)%Z /\
                (sent_counter c1 = sent_counter c \/
                 sent_counter c1 = 0%Z) /\ ws c1 = ws c).
  { apply dead_link_check_counter in Hd; [|lia].
    destruct Hd as [[A [B [C _]]]|[A [B [C _]]]]; auto. }
  destruct Hd' as [Hr1 [Hc1 Hw1]].
  assert (Hfin : sent_counter c' = sent_counter c1 \/
                 sent_counter c' = 0%Z \/
                 ((sent_counter c' = (sent_counter c1 + 1)%Z \/
                   sent_counter c' = 1%Z) /\ ws c' <> None)).
  { destruct r1 as [[]|e].
    - now apply publish_loop_counter in H.
    - inversion H; subst. now left. }
  unfold counter_ok. simpl. split; [|split].
  - destruct Hfin as [Hf|[Hf|[[Hf|Hf] _]]]; lia.
  - intros Hgt. destruct Hfin as [Hf|[Hf|[_ Hf]]]; [|lia|exact Hf].
    apply F1. apply Hpos. destruct Hc1; lia.
  - intros Hs. destruct (F2 Hs) as [Hs0|Hs0]; auto.
Qed.

Lemma quiet_frame_counter_ok s s' :
  session_frame s s' -> quiet_step s s' -> counter_ok s -> counter_ok s'.
Proof.
  intros [F1 [F2 _]] [_ Q] [Hb [Hpos Hst]]. split; [|split].
  - destruct Q as [Q|Q]; rewrite Q; lia.
  - intros Hgt. apply F1. apply Hpos. destruct Q as [Q|Q]; lia.
  - intros Hs. destruct (F2 Hs) as [Hs0|Hs0]; auto.
Qed.

Lemma as_api_counter_ok {A} (m : ApiM A) method url s r s' :
  (forall a w r a' w', m (a, w) = (r, (a', w')) ->
                       exists k, w' = after_requests k method url w) ->
  as_api m s = (r, s') -> counter_ok s -> counter_ok s'.
Proof.
  intros Hm H [Hb [Hpos Hst]]. destruct s as [c w], s' as [c' w'].
  apply as_api_effect in H. destruct H as [a' [H Hc]].
  apply Hm in H. destruct H as [k Hw]. subst.
  unfold counter_ok. simpl in *. rewrite started_requests. auto.
Qed.

Lemma step_counter_ok s s' : step E s s' -> counter_ok s -> counter_ok s'.
Proof.
  intros H. destruct H as [url r s s' H|url r s s' H|r s s' H|r s s' H
                          |r s s' H|msg r s s' H|cb r s s' Hst H].
  - apply (as_api_counter_ok (login E url) "POST" url s r s'); auto.
    intros a w r0 a' w'. apply login_world.
  - apply (as_api_counter_ok (get_devices E url) "GET" url s r s'); auto.
    intros a w r0 a' w'. apply get_devices_world.
  - apply quiet_frame_counter_ok.
    + exact (stable_frame_check_credentials E _ _ _ H).
    + exact (stable_quiet_check_credentials E _ _ _ H).
  - apply quiet_frame_counter_ok.
    + exact (stable_frame_open_wss_thread E _ _ _ H).
    + exact (stable_quiet_open_wss_thread E _ _ _ H).
  - apply quiet_frame_counter_ok.
    + exact (stable_frame_connect_wss E _ _ _ H).
    + exact (stable_quiet_connect_wss E _ _ _ H).
  - exact (publish_wss_counter_ok msg s r s' H).
  - apply quiet_frame_counter_ok.
    + exact (stable_frame_fire cb _ _ _ H).
    + exact (stable_quiet_fire cb _ _ _ H).
Qed.

End SessionMore.

(** X14: however [connect_wss] ends, it has sent no message, has left
    [sent_counter] alone or reset it to 0 (never raised it), and has kept
    to [session_frame]: a socket handle that was set is still set, and the
    username, password, device list, [device_status], [subscriber] and
    [_refresh_time] are untouched; a controller holding a truthy API key
    has sent no HTTP request and kept its credentials. *)
Theorem connect_wss_frame (E : env) (s s' : RyobiWssCtrl * world)
    (r : pyres bool) :
  connect_wss E s = (r, s') -> session_frame s s' /\ quiet_step s s'.
Proof.
  intros H. split.
  - exact (stable_frame_connect_wss E s r s' H).
  - exact (stable_quiet_connect_wss E s r s' H).
Qed.

Lemma connect_wss_frame_witness :
  session_frame (ctrl_keyed, world0) opened /\
  quiet_step (ctrl_keyed, world0) opened.
Proof.
  apply (connect_wss_frame env_opens (ctrl_keyed, world0) opened (Ret true)).
  vm_compute. reflexivity.
Defined.

(** X15: [publish_wss] keeps to [session_frame] as well, whether it
    returns or raises: reconnecting from inside a publish never unsets the
    socket handle, never touches the device list or the other fields named
    there and, with a truthy API key, never logs in again. *)
Theorem publish_wss_frame (E : env) (msg : json)
    (s s' : RyobiWssCtrl * world) (r : pyres bool) :
  publish_wss E msg s = (r, s') -> session_frame s s'.
Proof. intros H. exact (stable_frame_publish_wss E msg s r s' H). Qed.

Lemma publish_wss_frame_witness :
  session_frame (after_publishes 5) (after_publishes 6).
Proof.
  apply (publish_wss_frame env_opens (JStr "open") (after_publishes 5)
           (after_publishes 6) (Ret false)).
  vm_compute. reflexivity.
Defined.

(** X16: a call of [publish_wss] hands the message to [self.ws.send]
    successfully at most once. When it returns true exactly one send was
    made, of this message, on the current socket, and it is the latest
    event; when it returns false or raises, no send was made. *)
Theorem publish_wss_sends_once (E : env) (msg : json)
    (c c' : RyobiWssCtrl) (w w' : world) (r : pyres bool) :
  publish_wss E msg (c, w) = (r, (c', w')) ->
  (r = Ret true ->
   sends (log w') = S (sends (log w)) /\
   exists h older, ws c' = Some h /\ log w' = EvSend h msg :: older) /\
  (r <> Ret true -> sends (log w') = sends (log w)).
Proof.
  unfold publish_wss. unfold bind at 1.
  destruct (dead_link_check (c, w)) as [r1 [c1 w1]] eqn:Hd.
  assert (Hs : sends (log w1) = sends (log w)).
  { unfold dead_link_check, ws_close, on_ws, bind, self, update, in_world,
      ret, raise in Hd.
    simpl in Hd. destruct (Z.leb 5 (sent_counter c)); simpl in Hd.
    - destruct (ws c); simpl in Hd; inversion Hd; subst; reflexivity.
    - inversion Hd; subst; reflexivity. }
  destruct r1 as [[]|e].
  - intros H. apply publish_loop_sends in H. now rewrite Hs in H.
  - intros H; inversion H; subst. split; [discriminate|intros _; exact Hs].
Qed.

Lemma publish_wss_sends_once_witness :
  sends (log (snd (after_publishes 1))) = S (sends (log world0)) /\
  exists h older,
    ws (fst (after_publishes 1)) = Some h /\
    log (snd (after_publishes 1)) = EvSend h (JStr "open") :: older.
Proof.
  assert (H : publish_wss env_opens (JStr "open") (ctrl_keyed, world0)
              = (Ret true,
                 (fst (after_publishes 1), snd (after_publishes 1))))
    by (vm_compute; reflexivity).
  exact (proj1 (publish_wss_sends_once env_opens (JStr "open") ctrl_keyed
                  (fst (after_publishes 1)) world0
                  (snd (after_publishes 1)) (Ret true) H) eq_refl).
Defined.

(** X17: in every state the controller can reach, [sent_counter] is
    between 0 and 5, and the socket handle is set whenever the counter is
    positive, a thread was started or the state is [Connected]: the
    [self.ws.close()] and [self.ws.send()] of [publish_wss] are never
    called on [None], and the dead-link block never raises. *)
Theorem reachable_counter_ok (E : env) (s : RyobiWssCtrl * world) :
  reachable E s ->
  counter_ok s /\
  (socket_state (fst s) = SOCK_CONNECTED -> ws (fst s) <> None) /\
  exists s', dead_link_check s = (Ret tt, s').
Proof.
  intros Hr.
  assert (Hc : counter_ok s).
  { induction Hr as [u p k uid did|u p k uid did|s s' Hr IH Hs].
    - unfold counter_ok. simpl. repeat split; try lia; discriminate.
    - unfold counter_ok. simpl. repeat split; try lia; discriminate.
    - exact (step_counter_ok E s s' Hs IH). }
  split; [exact Hc|]. destruct Hc as [Hb [Hpos Hst]]. split.
  - intros Hconn. apply Hst.
    destruct (reachable_inv E s Hr) as [_ Hi]. exact (Hi Hconn).
  - destruct s as [c w]. simpl in *.
    destruct (Z_lt_le_dec (sent_counter c) 5) as [Hlt|Hge].
    + exists (c, w). now apply dead_link_check_below.
    + destruct (ws c) as [h|] eqn:Hws; [|exfalso; apply Hpos; [lia|easy]].
      exists (set_socket_state SOCK_CLOSE (set_sent_counter 0 c),
              emit (EvClose h) w).
      apply dead_link_check_reached; assumption.
Qed.

Lemma reachable_after_publishes n : reachable env_opens (after_publishes n).
Proof.
  induction n as [|n IH].
  - exact (reach_init env_opens "user" "secret" (JStr "k1") (JStr "u1")
             (JStr "d1")).
  - apply (reach_step _ (after_publishes n)); [exact IH|].
    apply (step_publish_wss env_opens (JStr "open")
             (fst (publish_wss env_opens (JStr "open") (after_publishes n)))).
    change (after_publishes (S n))
      with (snd (publish_wss env_opens (JStr "open") (after_publishes n))).
    apply surjective_pairing.
Defined.

Lemma reachable_counter_ok_witness :
  counter_ok (after_publishes 5) /\
  (socket_state (fst (after_publishes 5)) = SOCK_CONNECTED ->
   ws (fst (after_publishes 5)) <> None) /\
  exists s', dead_link_check (after_publishes 5) = (Ret tt, s').
Proof.
  apply (reachable_counter_ok env_opens (after_publishes 5)).
  apply reachable_after_publishes.
Defined.

(** * Opening, polling and publishing, case by case *)

Section Cases.

Variable E : env.


Lemma open_wss_thread_run c w :
  open_wss_thread E (c, w) =
  match check_credentials E (c, w) with
  | (Ret true, s1) =>
      match wss_setup E s1 with
      | (Ret b, s2) => (Ret b, s2)
      | (Raise e, s2) =>
          if is_WebSocketException e
          then (Ret false, (set_socket_state SOCK_ERROR (fst s2), snd s2))
          else (Raise e, s2)
      end
  | (Ret false, s1) => (Ret false, s1)
  | (Raise e, s1) => (Raise e, s1)
  end.
Proof.
  unfold open_wss_thread. unfold bind at 1.
  destruct (check_credentials E (c, w)) as [[[|]|e] s1];
    [|reflexivity|reflexivity].
  cbn [negb]. unfold try_except.
  destruct (wss_setup E s1) as [[b|e] s2]; [reflexivity|].
  destruct (is_WebSocketException e); reflexivity.
Qed.

Lemma check_credentials_run c w :
  check_credentials E (c, w) =
  if Py.truthy (api_key (base c)) then (Ret true, (c, w))
  else match login E LOGIN_URL (base c, w) with
       | (r, (a1, w1)) => (r, (set_base a1 c, w1))
       end.
Proof.
  unfold check_credentials, bind, self, ret, as_api. simpl.
  destruct (Py.truthy (api_key (base c))); [reflexivity|]. simpl.
  now destruct (login E LOGIN_URL (base c, w)) as [[[|]|e] [a1 w1]].
Qed.






Lemma sleep_ws_made c w r c' w' :
  sleep E (c, w) = (r, (c', w')) -> ws_made w' = ws_made w.
Proof.
  unfold sleep. simpl. destruct (started (log w)).
  - intros H. apply fire_all_counters in H. simpl in H. tauto.
  - intros H; now inversion H.
Qed.

Lemma connect_poll_ws_made n : forall c w r c' w',
  connect_poll E n (c, w) = (r, (c', w')) -> ws_made w' = ws_made w.
Proof.
  induction n as [|n IH]; intros c w r c' w' H.
  - now inversion H.
  - simpl in H. unfold bind, self, ret in H. simpl in H.
    destruct (sock_state_eqb (socket_state c) SOCK_CONNECTED).
    + now inversion H.
    + destruct (sleep E (c, w)) as [r1 [c1 w1]] eqn:Hsl.
      pose proof (sleep_counters _ _ _ _ _ _ Hsl) as [Hr1 _]. subst r1.
      apply sleep_ws_made in Hsl. apply IH in H. congruence.
Qed.

Lemma wss_setup_ws_made c w r c' w' :
  wss_setup E (c, w) = (r, (c', w')) ->
  ws_made w <= ws_made w' <= S (ws_made w).
Proof.
  rewrite wss_setup_run. cbv zeta.
  destruct (lib_raises E (lib_calls w));
    [|destruct (lib_raises E (S (lib_calls w)));
      [|destruct (lib_raises E (S (S (lib_calls w))));
        [|destruct (lib_raises E (S (S (S (lib_calls w)))))]]];
    intros H; inversion H; subst; simpl; lia.
Qed.

(** A connection attempt sleeps at most 15 times and creates at most one
    socket. *)
Lemma connect_wss_bounds c w r c' w' :
  connect_wss E (c, w) = (r, (c', w')) ->
  sleeps w <= sleeps w' <= sleeps w + 15 /\
  ws_made w <= ws_made w' <= S (ws_made w).
Proof.
  rewrite connect_wss_run.
  destruct (sock_state_eqb (socket_state c) SOCK_CONNECTED).
  { intros H; inversion H; subst. lia. }
  destruct (open_wss_thread E (c, w)) as [r1 [c1 w1]] eqn:Ho.
  assert (Hb : sleeps w1 = sleeps w /\
               ws_made w <= ws_made w1 <= S (ws_made w)).
  { apply open_wss_thread_effect in Ho. destruct Ho as [a' [n Ho]].
    cbv zeta in Ho.
    destruct Ho as [[Hc [Hw Hr]]|[[b [Hs Hr]]|[[e0 [c2 [Hs [He [Hr Hc]]]]]
                                              |[e0 [Hs [He Hr]]]]]].
    - subst. simpl. lia.
    - pose proof (wss_setup_effect _ _ _ _ _ _ Hs) as [Hsl _].
      apply wss_setup_ws_made in Hs. simpl in *. lia.
    - pose proof (wss_setup_effect _ _ _ _ _ _ Hs) as [Hsl _].
      apply wss_setup_ws_made in Hs. simpl in *. lia.
    - pose proof (wss_setup_effect _ _ _ _ _ _ Hs) as [Hsl _].
      apply wss_setup_ws_made in Hs. simpl in *. lia. }
  destruct r1 as [[|]|e].
  - intros H. pose proof (connect_poll_ws_made _ _ _ _ _ _ H) as Hm.
    apply connect_poll_effect in H. lia.
  - intros H; inversion H; subst. lia.
  - intros H; inversion H; subst. lia.
Qed.

Lemma publish_loop_bounds n msg : forall c w r c' w',
  publish_loop E n msg (c, w) = (r, (c', w')) ->
  sleeps w <= sleeps w' <= sleeps w + 15 * n /\
  ws_made w <= ws_made w' <= ws_made w + n.
Proof.
  induction n as [|n IH]; intros c w r c' w' H.
  - inversion H; subst. lia.
  - rewrite publish_loop_run in H.
    destruct (sock_state_eqb (socket_state c) SOCK_CONNECTED).
    + destruct (ws c) as [h|].
      * cbv zeta in H. destruct (lib_raises E (lib_calls w)) as [e|].
        -- destruct (is_WebSocketConnectionClosedException e).
           ++ apply IH in H. simpl in H. lia.
           ++ inversion H; subst. simpl. lia.
        -- inversion H; subst. simpl. lia.
      * inversion H; subst. lia.
    + destruct (connect_wss E (c, w)) as [[b|e] [c1 w1]] eqn:Hc;
        apply connect_wss_bounds in Hc.
      * apply IH in H. lia.
      * inversion H; subst. lia.
Qed.

End Cases.

(** X18: without a truthy API key, [open_wss_thread] goes no further than
    the login: when [login] returns false it returns false, when [login]
    raises the exception passes through, and in both cases no socket is
    created, no library call is made and the controller only carries what
    [login] stored. *)
Theorem open_wss_thread_without_key (E : env) (c : RyobiWssCtrl)
    (w w1 : world) (a1 : RyobiApi) (r1 : pyres bool) :
  Py.truthy (api_key (base c)) = false ->
  login E LOGIN_URL (base c, w) = (r1, (a1, w1)) ->
  r1 <> Ret true ->
  open_wss_thread E (c, w) = (r1, (set_base a1 c, w1)) /\
  lib_calls w1 = lib_calls w /\ ws_made w1 = ws_made w /\
  sleeps w1 = sleeps w.
Proof.
  intros Hk Hl Hr. split.
  - rewrite open_wss_thread_run, check_credentials_run, Hk, Hl.
    destruct r1 as [[|]|e]; [now elim Hr|reflexivity|reflexivity].
  - apply login_world in Hl. destruct Hl as [k Hw]. now subst w1.
Qed.

Lemma open_wss_thread_without_key_witness :
  open_wss_thread (env_reply (HttpResponse 200 (Some body_login_ok)))
    (RyobiWssCtrl_init "user" "secret" JNull JNull JNull, world0)
  = (Ret false,
     (set_base (mkApi "user" "secret" JNull (JStr "u1") [])
        (RyobiWssCtrl_init "user" "secret" JNull JNull JNull),
      after_requests 1 "POST" LOGIN_URL world0)) /\
  lib_calls (after_requests 1 "POST" LOGIN_URL world0) = lib_calls world0 /\
  ws_made (after_requests 1 "POST" LOGIN_URL world0) = ws_made world0 /\
  sleeps (after_requests 1 "POST" LOGIN_URL world0) = sleeps world0.
Proof.
  apply (open_wss_thread_without_key
           (env_reply (HttpResponse 200 (Some body_login_ok)))
           (RyobiWssCtrl_init "user" "secret" JNull JNull JNull) world0
           (after_requests 1 "POST" LOGIN_URL world0)
           (mkApi "user" "secret" JNull (JStr "u1") []) (Ret false));
    [reflexivity|reflexivity|discriminate].
Defined.

(** X19: once the credentials are there and none of the four library
    calls of the setup raises, [open_wss_thread] has created one socket,
    sent the authentication and the subscription frame on it, started the
    thread, in this order, and returns whether that thread is alive; it
    leaves [socket_state] as it was, also when the thread is dead and it
    returns false. *)
Theorem open_wss_thread_setup (E : env) (c c1 : RyobiWssCtrl)
    (w w1 : world) :
  check_credentials E (c, w) = (Ret true, (c1, w1)) ->
  (forall i, i < 4 -> lib_raises E (lib_calls w1 + i) = None) ->
  open_wss_thread E (c, w)
  = (Ret (thread_alive E (ws_made w1)),
     (set_wst (Some (ws_made w1)) (set_ws (Some (ws_made w1)) c1),
      after_calls 4 (S (ws_made w1))
        [EvThreadStart (ws_made w1); EvSub (ws_made w1);
         EvAuth (ws_made w1); EvWsCreate (ws_made w1)] w1)) /\
  socket_state
    (set_wst (Some (ws_made w1)) (set_ws (Some (ws_made w1)) c1))
  = socket_state c.
Proof.
  intros Hc Hl. split.
  - rewrite open_wss_thread_run, Hc, wss_setup_run. cbv zeta.
    pose proof (Hl 0) as H0. pose proof (Hl 1) as H1.
    pose proof (Hl 2) as H2. pose proof (Hl 3) as H3.
    rewrite Nat.add_0_r in H0.
    rewrite Nat.add_1_r in H1.
    replace (lib_calls w1 + 2) with (S (S (lib_calls w1))) in H2 by lia.
    replace (lib_calls w1 + 3) with (S (S (S (lib_calls w1)))) in H3 by lia.
    rewrite H0, H1, H2, H3 by lia. reflexivity.
  - apply check_credentials_effect in Hc.
    destruct Hc as [a' [k [Hc _]]]. now subst c1.
Qed.

Lemma open_wss_thread_setup_witness :
  open_wss_thread env_silent (ctrl_keyed, world0)
  = (Ret true,
     (set_wst (Some 0) (set_ws (Some 0) ctrl_keyed),
      after_calls 4 1 [EvThreadStart 0; EvSub 0; EvAuth 0; EvWsCreate 0]
        world0)) /\
  socket_state (set_wst (Some 0) (set_ws (Some 0) ctrl_keyed))
  = socket_state ctrl_keyed.
Proof.
  apply (open_wss_thread_setup env_silent ctrl_keyed ctrl_keyed world0
           world0); [reflexivity|].
  intros i Hi. reflexivity.
Defined.


(** X21: called in state [Connected] with the counter below 5 and a send
    that goes through, [publish_wss] returns true after that single
    library call: the counter is one higher, the send is logged, and
    nothing else has changed. *)
Theorem publish_wss_connected (E : env) (msg : json) (c : RyobiWssCtrl)
    (w : world) (h : nat) :
  socket_state c = SOCK_CONNECTED ->
  (sent_counter c < 5)%Z ->
  ws c = Some h ->
  lib_raises E (lib_calls w) = None ->
  publish_wss E msg (c, w)
  = (Ret true,
     (set_sent_counter (sent_counter c + 1) c,
      mkWorld (http_sent w) (S (lib_calls w)) (ws_made w) (sleeps w)
              (EvSend h msg :: log w))).
Proof.
  intros Hs Hc Hw Hl. unfold publish_wss. unfold bind at 1.
  rewrite dead_link_check_below by exact Hc.
  unfold N_RETRY. rewrite publish_loop_run, Hs, Hw. cbv zeta.
  now rewrite Hl.
Qed.

Lemma publish_wss_connected_witness :
  publish_wss env_opens (JStr "open") opened
  = (Ret true,
     (set_sent_counter 1 (fst opened),
      mkWorld 0 5 1 1 (EvSend 0 (JStr "open") :: log (snd opened)))).
Proof.
  apply (publish_wss_connected env_opens (JStr "open") (fst opened)
           (snd opened) 0); reflexivity.
Defined.

(** X22: when the send raises anything but
    [WebSocketConnectionClosedException], the exception leaves
    [publish_wss] at once: no retry, no reconnection, the counter is not
    raised and [socket_state] stays [Connected]. *)
Theorem publish_wss_send_error (E : env) (msg : json) (c : RyobiWssCtrl)
    (w : world) (h : nat) (e : exn) :
  socket_state c = SOCK_CONNECTED ->
  (sent_counter c < 5)%Z ->
  ws c = Some h ->
  lib_raises E (lib_calls w) = Some e ->
  is_WebSocketConnectionClosedException e = false ->
  publish_wss E msg (c, w)
  = (Raise e,
     (c, mkWorld (http_sent w) (S (lib_calls w)) (ws_made w) (sleeps w)
           (log w))).
Proof.
  intros Hs Hc Hw Hl He. unfold publish_wss. unfold bind at 1.
  rewrite dead_link_check_below by exact Hc.
  unfold N_RETRY. rewrite publish_loop_run, Hs, Hw. cbv zeta.
  now rewrite Hl, He.
Qed.

Lemma publish_wss_send_error_witness :
  publish_wss env_auth_fails (JStr "open")
    (set_socket_state SOCK_CONNECTED (set_ws (Some 0) ctrl_keyed),
     mkWorld 0 1 1 0 [])
  = (Raise WebSocketException,
     (set_socket_state SOCK_CONNECTED (set_ws (Some 0) ctrl_keyed),
      mkWorld 0 2 1 0 [])).
Proof.
  apply (publish_wss_send_error env_auth_fails (JStr "open")
           (set_socket_state SOCK_CONNECTED (set_ws (Some 0) ctrl_keyed))
           (mkWorld 0 1 1 0 []) 0 WebSocketException);
    reflexivity || (simpl; lia).
Defined.

(** X23: a call of [publish_wss] sleeps at most 15 * [N_RETRY] = 90 times
    (45 seconds of polling) and creates at most [N_RETRY] sockets,
    whatever the network does. *)
Theorem publish_wss_bounds (E : env) (msg : json) (c c' : RyobiWssCtrl)
    (w w' : world) (r : pyres bool) :
  publish_wss E msg (c, w) = (r, (c', w')) ->
  sleeps w <= sleeps w' <= sleeps w + 90 /\
  ws_made w <= ws_made w' <= ws_made w + N_RETRY.
Proof.
  unfold publish_wss. unfold bind at 1.
  destruct (dead_link_check (c, w)) as [r1 [c1 w1]] eqn:Hd.
  assert (Hw : sleeps w1 = sleeps w /\ ws_made w1 = ws_made w).
  { unfold dead_link_check, ws_close, on_ws, bind, self, update, in_world,
      ret, raise in Hd.
    simpl in Hd. destruct (Z.leb 5 (sent_counter c)); simpl in Hd.
    - destruct (ws c); simpl in Hd; inversion Hd; subst; now split.
    - inversion Hd; subst; now split. }
  destruct r1 as [[]|e].
  - intros H. apply publish_loop_bounds in H. unfold N_RETRY in *. lia.
  - intros H; inversion H; subst. unfold N_RETRY. lia.
Qed.

Lemma publish_wss_bounds_witness :
  sleeps (snd (after_publishes 5)) <= sleeps (snd (after_publishes 6))
    <= sleeps (snd (after_publishes 5)) + 90 /\
  ws_made (snd (after_publishes 5)) <= ws_made (snd (after_publishes 6))
    <= ws_made (snd (after_publishes 5)) + N_RETRY.
Proof.
  apply (publish_wss_bounds env_opens (JStr "open")
           (fst (after_publishes 5)) (fst (after_publishes 6))
           (snd (after_publishes 5)) (snd (after_publishes 6)) (Ret false)).
  vm_compute. reflexivity.
Defined.


